(** * Asynchronous Successive Halving pruner

    A shallow embedding of [optuna/pruners/successive_halving.py] and the
    properties of its rung bookkeeping and promotion decision.

    Conventions of the embedding.
    - Python [int] is [Z]; the rung counter, which starts at [0] and is only
      ever incremented, is [nat].
    - A reported value is a Python float.  The code only tests it with
      [math.isnan] and compares it with [<=], [>=] and [list.sort], so a float
      is either [NaN] or a number, and numbers are represented by a point of a
      total order ([Z]).
    - A Python exception is a value of [exn]; a computation that may raise
      returns [result A].
    - The trial store is an explicit state that [prune] threads through. *)

From stdpp Require Import gmap strings list sorting pretty.
From Stdlib Require Import ZArith Lia.

Local Open Scope Z_scope.

(** ** Python values and exceptions *)

Inductive exn : Set :=
  | ValueError
  | KeyError
  | IndexError
  | ZeroDivisionError.

Definition result (A : Type) : Type := (exn + A)%type.

Inductive value : Set :=
  | NaN
  | Num (x : Z).

(** Modelled from the spec: the direction of a study, minimize or maximize;
    the declaration of [StudyDirection] is not among these sources. *)
Inductive StudyDirection : Set :=
  | MINIMIZE
  | MAXIMIZE.

Global Instance StudyDirection_eq_dec : EqDecision StudyDirection.
Proof. solve_decision. Defined.

(** [a // b] on integers: floor division, raising on a zero divisor. *)
Definition floordiv (a b : Z) : result Z :=
  if decide (b = 0) then inl ZeroDivisionError else inr (a `div` b).

(** [l[i]] on a list: a negative index counts from the end, an index outside
    [-len l .. len l - 1] raises [IndexError]. *)
Definition getitem {A} (l : list A) (i : Z) : result A :=
  let n := Z.of_nat (length l) in
  let j := if decide (i < 0) then n + i else i in
  if decide (0 ≤ j < n) then
    match l !! Z.to_nat j with
    | Some x => inr x
    | None => inl IndexError
    end
  else inl IndexError.

(** [list.sort()] on numbers: the ascending rearrangement. *)
Definition sort (l : list Z) : list Z := merge_sort Z.le l.

(** ** The promotion decision engine *)

(** The index computed at the head of [_is_trial_promotable_to_next_rung]:
    [len(competing_values) // reduction_factor - 1], with [-1] replaced by
    [0]. *)
Definition promotable_idx (n : nat) (reduction_factor : Z) : result Z :=
  match floordiv (Z.of_nat n) reduction_factor with
  | inl e => inl e
  | inr q =>
      let promotable_idx := q - 1 in
      inr (if decide (promotable_idx = -1) then 0 else promotable_idx)
  end.

Definition _is_trial_promotable_to_next_rung
    (value : Z) (competing_values : list Z) (reduction_factor : Z)
    (study_direction : StudyDirection) : result bool :=
  match promotable_idx (length competing_values) reduction_factor with
  | inl e => inl e
  | inr promotable_idx =>
      let competing_values := sort competing_values in
      if decide (study_direction = MAXIMIZE) then
        match getitem competing_values (- (promotable_idx + 1)) with
        | inl e => inl e
        | inr cutoff => inr (bool_decide (cutoff ≤ value))
        end
      else
        match getitem competing_values promotable_idx with
        | inl e => inl e
        | inr cutoff => inr (bool_decide (value ≤ cutoff))
        end
  end.

(** ** Order statistics, stated by counting

    [c] is the [(k+1)]-th smallest element of [l] when it occurs in [l], at
    most [k] elements are strictly below it and more than [k] are at or below
    it; symmetrically for the [(k+1)]-th largest.  Neither notion mentions a
    sorted copy of the list. *)

Definition count_if (P : Z → Prop) `{∀ x, Decision (P x)} (l : list Z) : nat :=
  length (filter P l).

Definition kth_smallest (k : nat) (l : list Z) (c : Z) : Prop :=
  c ∈ l ∧
  (count_if (λ x, (x < c)%Z) l ≤ k)%nat ∧
  (k < count_if (λ x, (x ≤ c)%Z) l)%nat.

Definition kth_largest (k : nat) (l : list Z) (c : Z) : Prop :=
  c ∈ l ∧
  (count_if (λ x, (c < x)%Z) l ≤ k)%nat ∧
  (k < count_if (λ x, (c ≤ x)%Z) l)%nat.

(** The cutoff of the decision, by direction. *)
Definition is_cutoff (d : StudyDirection) (k : nat) (l : list Z) (c : Z) : Prop :=
  match d with
  | MINIMIZE => kth_smallest k l c
  | MAXIMIZE => kth_largest k l c
  end.

(** Whether [v] passes the cutoff [c]: ties pass. *)
Definition passes (d : StudyDirection) (v c : Z) : bool :=
  match d with
  | MINIMIZE => bool_decide (v ≤ c)
  | MAXIMIZE => bool_decide (c ≤ v)
  end.

(** ** Trials, the study and its store *)

(** Modelled from the spec: a [FrozenTrial], whose declaration is not among
    these sources, with the attributes this module reads.  [system_attrs] is
    restricted to numeric entries: the only keys the pruner reads or writes
    are rung markers, and it writes one only after the [math.isnan] test. *)
Record FrozenTrial : Type := {
  _trial_id : nat;
  last_step : option Z;
  intermediate_values : gmap Z value;
  system_attrs : gmap string Z;
}.

Definition with_system_attr (key : string) (x : Z) (t : FrozenTrial) : FrozenTrial :=
  {| _trial_id := _trial_id t;
     last_step := last_step t;
     intermediate_values := intermediate_values t;
     system_attrs := <[key := x]> (system_attrs t) |}.

(** Modelled from the spec: the trial store behind a study, which is not
    among these sources.  [stored_trials] are the trial records in store
    order.  [shares_objects] tells whether [get_trials(deepcopy=False)]
    hands out the stored objects themselves (an in-memory store) or fresh
    copies (a remote one).  [journal] lists the [set_trial_system_attr] calls
    made so far, latest first. *)
Record Storage : Type := {
  stored_trials : list FrozenTrial;
  shares_objects : bool;
  journal : list (nat * string * Z);
}.

(** Modelled from the spec: a study, with its direction and its store. *)
Record Study : Type := {
  direction : StudyDirection;
  _storage : Storage;
}.

(** Modelled from the spec: the store's attribute write is absent from the
    sources; it sets the attribute on exactly the named trial. *)
Definition write_attr (trial_id : nat) (key : string) (x : Z) (t : FrozenTrial) : FrozenTrial :=
  if decide (_trial_id t = trial_id) then with_system_attr key x t else t.

(** Modelled from the spec: [set_trial_system_attr] of the absent trial
    store. *)
Definition set_trial_system_attr
    (study : Study) (trial_id : nat) (key : string) (x : Z) : Study :=
  {| direction := direction study;
     _storage :=
       {| stored_trials := write_attr trial_id key x <$> stored_trials (_storage study);
          shares_objects := shares_objects (_storage study);
          journal := (trial_id, key, x) :: journal (_storage study) |} |}.

(** Modelled from the spec: [study.get_trials(deepcopy=False)], the snapshot
    of all the trials of the study. *)
Definition get_trials (study : Study) : list FrozenTrial :=
  stored_trials (_storage study).

(** Modelled from the spec: reading one trial back from the store, as the
    caller of [prune] does before each call. *)
Definition get_trial (study : Study) (trial_id : nat) : option FrozenTrial :=
  snd <$> list_find (λ t, _trial_id t = trial_id) (stored_trials (_storage study)).

(** ** Rung bookkeeping *)

(** ['completed_rung_{}'.format(rung)] *)
Definition _completed_rung_key (rung : nat) : string :=
  "completed_rung_" +:+ pretty rung.

(** [rung_key in system_attrs] *)
Definition has_key (attrs : gmap string Z) (key : string) : bool :=
  bool_decide (is_Some (attrs !! key)).

(** The loop of [_get_current_rung], started at [rung].  A dictionary with
    [fuel] entries cannot hold the markers of more than [fuel] rungs, so the
    loop is run for at most [fuel] increments. *)
Fixpoint _get_current_rung_from (fuel : nat) (attrs : gmap string Z) (rung : nat) : nat :=
  match fuel with
  | O => rung
  | S fuel =>
      if has_key attrs (_completed_rung_key rung)
      then _get_current_rung_from fuel attrs (S rung)
      else rung
  end.

Definition _get_current_rung (trial : FrozenTrial) : nat :=
  _get_current_rung_from (size (system_attrs trial)) (system_attrs trial) 0.

Definition _get_competing_values
    (trials : list FrozenTrial) (value : Z) (rung_key : string) : list Z :=
  let competing_values := omap (λ t, system_attrs t !! rung_key) trials in
  competing_values ++ [value].

(** ** The pruner *)

Record SuccessiveHalvingPruner : Type := {
  _min_resource : Z;
  _reduction_factor : Z;
  _min_early_stopping_rate : Z;
}.

Definition __init__
    (min_resource reduction_factor min_early_stopping_rate : Z)
    : result SuccessiveHalvingPruner :=
  if decide (min_resource < 1) then inl ValueError
  else if decide (reduction_factor < 2) then inl ValueError
  else if decide (min_early_stopping_rate < 0) then inl ValueError
  else inr {| _min_resource := min_resource;
              _reduction_factor := reduction_factor;
              _min_early_stopping_rate := min_early_stopping_rate |}.

(** What [__init__] checks. *)
Definition valid (self : SuccessiveHalvingPruner) : Prop :=
  1 ≤ _min_resource self ∧ 2 ≤ _reduction_factor self ∧
  0 ≤ _min_early_stopping_rate self.

(** The threshold of a rung, [rung_promotion_step] in [prune].  On the
    non-negative exponents a constructed pruner has, [Z.pow] is Python's
    integer [**]. *)
Definition rung_promotion_step (self : SuccessiveHalvingPruner) (rung : nat) : Z :=
  _min_resource self *
  _reduction_factor self ^ (_min_early_stopping_rate self + Z.of_nat rung).

(** The [while True] loop of [prune].  The match on [value] is the
    [math.isnan] test.  [trials] is the lazily fetched snapshot; when the store
    shares its objects the write of the marker shows through the snapshot.  [None] is returned only when [fuel] iterations did
    not reach a [return]. *)
Fixpoint prune_loop (fuel : nat) (self : SuccessiveHalvingPruner)
    (trial_id : nat) (step : Z) (value : value)
    (rung : nat) (trials : option (list FrozenTrial)) (study : Study)
    : option (result bool * Study) :=
  match fuel with
  | O => None
  | S fuel =>
      if decide (step < rung_promotion_step self rung) then Some (inr false, study)
      else
        match value with
        | NaN => Some (inr true, study)
        | Num x =>
            let trials :=
              match trials with None => get_trials study | Some ts => ts end in
            let rung_key := _completed_rung_key rung in
            let study' := set_trial_system_attr study trial_id rung_key x in
            let trials :=
              if shares_objects (_storage study)
              then write_attr trial_id rung_key x <$> trials else trials in
            match _is_trial_promotable_to_next_rung
                    x (_get_competing_values trials x rung_key)
                    (_reduction_factor self) (direction study) with
            | inl e => Some (inl e, study')
            | inr false => Some (inr true, study')
            | inr true =>
                prune_loop fuel self trial_id step value (S rung) (Some trials) study'
            end
        end
  end.

(** [SuccessiveHalvingPruner.prune].  The loop is given [step + 1]
    iterations, which a constructed pruner never exhausts (its thresholds
    exceed the rung index). *)
Definition prune (self : SuccessiveHalvingPruner) (study : Study) (trial : FrozenTrial)
    : option (result bool * Study) :=
  match last_step trial with
  | None => Some (inr false, study)
  | Some step =>
      let rung := _get_current_rung trial in
      match intermediate_values trial !! step with
      | None => Some (inl KeyError, study)
      | Some value =>
          prune_loop (S (Z.to_nat step)) self (_trial_id trial) step value rung None study
      end
  end.

(** ** Vocabulary of the statements *)

(** The trial holds the completion marker of [rung]. *)
Definition completed (attrs : gmap string Z) (rung : nat) : Prop :=
  is_Some (attrs !! _completed_rung_key rung).

(** The marked rungs are exactly [0 .. k-1]. *)
Definition completed_below (attrs : gmap string Z) (k : nat) : Prop :=
  ∀ s, completed attrs s ↔ (s < k)%nat.

Definition markers_are_prefix (attrs : gmap string Z) : Prop :=
  ∃ k, completed_below attrs k.

(** Two records of one trial with the same reported measurements. *)
Definition same_reports (t t' : FrozenTrial) : Prop :=
  _trial_id t' = _trial_id t ∧ last_step t' = last_step t ∧
  intermediate_values t' = intermediate_values t.

(** The storage writes made between two states of the study, latest first. *)
Definition writes_between (study study' : Study) (new : list (nat * string * Z)) : Prop :=
  journal (_storage study') = new ++ journal (_storage study).

(** The last measurement the trial reported is [v] at [step]. *)
Definition reported (trial : FrozenTrial) (step : Z) (v : value) : Prop :=
  last_step trial = Some step ∧ intermediate_values trial !! step = Some v.

(** The competing values read as the spec words them: the set of the values
    recorded under the marker, united with the deciding trial's value. *)
Definition competing_value_set
    (trials : list FrozenTrial) (value : Z) (rung_key : string) : gset Z :=
  list_to_set (omap (λ t, system_attrs t !! rung_key) trials) ∪ {[value]}.

(** ** Scenarios *)

Definition default_pruner : SuccessiveHalvingPruner :=
  {| _min_resource := 1; _reduction_factor := 4; _min_early_stopping_rate := 0 |}.

Definition a_trial (trial_id : nat) (step : Z) (x : Z) (attrs : list (string * Z))
    : FrozenTrial :=
  {| _trial_id := trial_id;
     last_step := Some step;
     intermediate_values := {[step := Num x]};
     system_attrs := list_to_map attrs |}.

Definition a_study (d : StudyDirection) (shares : bool) (trials : list FrozenTrial) : Study :=
  {| direction := d;
     _storage := {| stored_trials := trials; shares_objects := shares; journal := [] |} |}.

(** A trial at step 1 with value 10 and no marker, next to one that completed
    rung 0 with value 5. *)
Definition late_trial : FrozenTrial := a_trial 0 1 10 [].
Definition late_study : Study :=
  a_study MINIMIZE false [late_trial; a_trial 1 1 5 [("completed_rung_0", 5)]].

(** A trial at step 64 whose markers are those of rungs 0 and 3 only, next to
    one that completed rung 1 with a better value. *)
Definition gap_trial : FrozenTrial :=
  a_trial 0 64 1 [("completed_rung_0", 1); ("completed_rung_3", 1)].
Definition gap_study : Study :=
  a_study MINIMIZE false [gap_trial; a_trial 1 64 0 [("completed_rung_1", 0)]].

(** Four trials that completed rung 0 with the values 1, 2, 2 and 2. *)
Definition tied_trials : list FrozenTrial :=
  [a_trial 1 1 1 [("completed_rung_0", 1)]; a_trial 2 1 2 [("completed_rung_0", 2)];
   a_trial 3 1 2 [("completed_rung_0", 2)]; a_trial 4 1 2 [("completed_rung_0", 2)]].

(** [v] is at least as good as [y] in the direction of the study. *)
Definition at_least_as_good (d : StudyDirection) (v y : Z) : Prop :=
  match d with
  | MINIMIZE => v ≤ y
  | MAXIMIZE => y ≤ v
  end.

(** [y] is strictly better than [v] in the direction of the study. *)
Definition strictly_better (d : StudyDirection) (v y : Z) : Prop :=
  match d with
  | MINIMIZE => y < v
  | MAXIMIZE => v < y
  end.

Global Instance at_least_as_good_dec d v y : Decision (at_least_as_good d v y).
Proof. destruct d; simpl; apply _. Defined.

Global Instance strictly_better_dec d v y : Decision (strictly_better d v y).
Proof. destruct d; simpl; apply _. Defined.

(** The journal entries of the markers of the [m] rungs from [rung] on, all
    with the value [x], latest first. *)
Definition markers_written (trial_id : nat) (x : Z) (rung m : nat)
    : list (nat * string * Z) :=
  (λ s, (trial_id, _completed_rung_key s, x)) <$> reverse (seq rung m).

(** The study after the markers of the [m] rungs from [rung] on were
    recorded for the trial, one [set_trial_system_attr] call per rung in
    ascending order. *)
Definition record_rungs (study : Study) (trial_id : nat) (x : Z) (rung m : nat) : Study :=
  foldl (λ st s, set_trial_system_attr st trial_id (_completed_rung_key s) x)
        study (seq rung m).

(** A trial record after the same markers were set on it. *)
Definition with_rungs (x : Z) (rung m : nat) (t : FrozenTrial) : FrozenTrial :=
  foldl (λ t s, with_system_attr (_completed_rung_key s) x t) t (seq rung m).

(** No rung marker recorded by the trials is strictly better than [x]. *)
Definition no_better_marker (d : StudyDirection) (x : Z) (trials : list FrozenTrial) : Prop :=
  ∀ t s y, t ∈ trials → system_attrs t !! _completed_rung_key s = Some y →
           at_least_as_good d x y.

(** A trial at step 5 with value 1 and no marker, next to one that completed
    rung 0 with value 5. *)
Definition leading_trial : FrozenTrial := a_trial 0 5 1 [].
Definition leading_study : Study :=
  a_study MINIMIZE false [leading_trial; a_trial 1 5 5 [("completed_rung_0", 5)]].

(** Two states of a study that differ at most in the order in which the
    store lists its trials. *)
Definition same_up_to_order (study1 study2 : Study) : Prop :=
  direction study1 = direction study2 ∧
  shares_objects (_storage study1) = shares_objects (_storage study2) ∧
  journal (_storage study1) = journal (_storage study2) ∧
  stored_trials (_storage study1) ≡ₚ stored_trials (_storage study2).

(** [leading_study] with its trials listed in the other order. *)
Definition leading_study_swapped : Study :=
  a_study MINIMIZE false [a_trial 1 5 5 [("completed_rung_0", 5)]; leading_trial].

(** ** A store whose calls may fail *)

(** Modelled from the spec: the two calls [prune] makes on the store, each of
    which may raise; [None] is a call that raised. *)
Record StoreCalls : Type := {
  try_get_trials : Study → option (list FrozenTrial);
  try_set_trial_system_attr : Study → nat → string → Z → option Study;
}.

(** How a call of [prune] ends: it returns a boolean, raises an exception of
    its own code, or lets a failure of the store through. *)
Inductive outcome : Set :=
  | Returned (b : bool)
  | Raised (e : exn)
  | StoreRaised.

Definition outcome_of (r : result bool) : outcome :=
  match r with inl e => Raised e | inr b => Returned b end.

(** The loop of [prune] over such a store: a failed call ends the loop with
    the study as the failed call found it. *)
Fixpoint prune_loop_on (calls : StoreCalls) (fuel : nat) (self : SuccessiveHalvingPruner)
    (trial_id : nat) (step : Z) (value : value)
    (rung : nat) (trials : option (list FrozenTrial)) (study : Study)
    : option (outcome * Study) :=
  match fuel with
  | O => None
  | S fuel =>
      if decide (step < rung_promotion_step self rung) then Some (Returned false, study)
      else
        match value with
        | NaN => Some (Returned true, study)
        | Num x =>
            match (match trials with
                   | None => try_get_trials calls study
                   | Some ts => Some ts
                   end) with
            | None => Some (StoreRaised, study)
            | Some trials =>
                let rung_key := _completed_rung_key rung in
                match try_set_trial_system_attr calls study trial_id rung_key x with
                | None => Some (StoreRaised, study)
                | Some study' =>
                    let trials :=
                      if shares_objects (_storage study)
                      then write_attr trial_id rung_key x <$> trials else trials in
                    match _is_trial_promotable_to_next_rung
                            x (_get_competing_values trials x rung_key)
                            (_reduction_factor self) (direction study') with
                    | inl e => Some (Raised e, study')
                    | inr false => Some (Returned true, study')
                    | inr true =>
                        prune_loop_on calls fuel self trial_id step value (S rung)
                          (Some trials) study'
                    end
                end
            end
        end
  end.

(** [SuccessiveHalvingPruner.prune] over a store whose calls may fail. *)
Definition prune_on (calls : StoreCalls) (self : SuccessiveHalvingPruner)
    (study : Study) (trial : FrozenTrial) : option (outcome * Study) :=
  match last_step trial with
  | None => Some (Returned false, study)
  | Some step =>
      let rung := _get_current_rung trial in
      match intermediate_values trial !! step with
      | None => Some (Raised KeyError, study)
      | Some value =>
          prune_loop_on calls (S (Z.to_nat step)) self (_trial_id trial) step value
            rung None study
      end
  end.

(** The store whose calls always succeed: the one [prune] is stated over. *)
Definition reliable_calls : StoreCalls :=
  {| try_get_trials := λ study, Some (get_trials study);
     try_set_trial_system_attr := λ study trial_id key x,
       Some (set_trial_system_attr study trial_id key x) |}.

(** A store that serves the snapshot and then refuses every write. *)
Definition read_only_calls : StoreCalls :=
  {| try_get_trials := λ study, Some (get_trials study);
     try_set_trial_system_attr := λ _ _ _ _, None |}.

(** * Properties *)

(** ** Sorting and indexing *)

Lemma sort_Permutation (l : list Z) : sort l ≡ₚ l.
Proof. apply merge_sort_Permutation. Qed.

Lemma sort_length (l : list Z) : length (sort l) = length l.
Proof. by rewrite sort_Permutation. Qed.

Lemma sort_StronglySorted (l : list Z) : StronglySorted Z.le (sort l).
Proof. apply (StronglySorted_merge_sort Z.le). Qed.

Lemma getitem_nonneg {A} (l : list A) (i : Z) :
  0 ≤ i < Z.of_nat (length l) →
  ∃ x, l !! Z.to_nat i = Some x ∧ getitem l i = inr x.
Proof.
  intros Hi. unfold getitem.
  destruct (lookup_lt_is_Some_2 l (Z.to_nat i)) as [x Hx]; [lia|].
  exists x. split; [done|].
  rewrite (decide_False (P := i < 0)) by lia.
  rewrite decide_True by lia. by rewrite Hx.
Qed.

Lemma getitem_from_end {A} (l : list A) (i : Z) :
  0 ≤ i < Z.of_nat (length l) →
  ∃ x, l !! (length l - 1 - Z.to_nat i)%nat = Some x ∧
       getitem l (- (i + 1)) = inr x.
Proof.
  intros Hi. unfold getitem.
  destruct (lookup_lt_is_Some_2 l (length l - 1 - Z.to_nat i)%nat) as [x Hx]; [lia|].
  exists x. split; [done|].
  rewrite (decide_True (P := - (i + 1) < 0)) by lia.
  rewrite decide_True by lia.
  replace (Z.to_nat (Z.of_nat (length l) + - (i + 1)))
    with (length l - 1 - Z.to_nat i)%nat by lia.
  by rewrite Hx.
Qed.

(** ** Counting *)

Section counting.
Context (P : Z → Prop) `{!∀ x, Decision (P x)}.

Lemma count_if_cons (x : Z) (l : list Z) :
  count_if P (x :: l) = ((if decide (P x) then 1 else 0) + count_if P l)%nat.
Proof. unfold count_if. rewrite filter_cons. by destruct (decide (P x)). Qed.

Lemma count_if_le_length (l : list Z) : (count_if P l ≤ length l)%nat.
Proof. apply length_filter. Qed.

Lemma count_if_none (l : list Z) : Forall (λ x, ¬ P x) l → count_if P l = 0%nat.
Proof.
  induction 1 as [|x l Hx _ IH]; [done|].
  rewrite count_if_cons, IH. by rewrite decide_False.
Qed.

Lemma count_if_all (l : list Z) : Forall P l → count_if P l = length l.
Proof.
  induction 1 as [|x l Hx _ IH]; [done|].
  rewrite count_if_cons, IH. by rewrite decide_True.
Qed.

Lemma count_if_Permutation (l l' : list Z) :
  l ≡ₚ l' → count_if P l = count_if P l'.
Proof. intros Hl. unfold count_if. by rewrite Hl. Qed.
End counting.

Lemma count_if_mono (P Q : Z → Prop)
    `{!∀ x, Decision (P x)} `{!∀ x, Decision (Q x)} (l : list Z) :
  (∀ x, P x → Q x) → (count_if P l ≤ count_if Q l)%nat.
Proof.
  intros HPQ. induction l as [|x l IH]; [done|].
  rewrite !count_if_cons.
  destruct (decide (P x)) as [HP|HP], (decide (Q x)) as [HQ|HQ]; simpl; try lia.
  exfalso. auto.
Qed.

(** In an ascending list the element at index [k] is the [(k+1)]-th
    smallest. *)
Lemma sorted_lookup_kth_smallest (s : list Z) (k : nat) (c : Z) :
  StronglySorted Z.le s → s !! k = Some c → kth_smallest k s c.
Proof.
  intros Hs. revert k. induction Hs as [|x s Hs IH Hx]; intros k Hk; [done|].
  destruct k as [|k]; simplify_eq/=.
  - split; [left|]. rewrite !count_if_cons.
    rewrite decide_False by lia. rewrite decide_True by lia.
    rewrite count_if_none; [lia|].
    eapply Forall_impl; [exact Hx|]. intros y ?; simpl. lia.
  - destruct (IH _ Hk) as (Hin & Hlt & Hle).
    assert (x ≤ c) by (rewrite Forall_forall in Hx; auto).
    split; [by right|]. rewrite !count_if_cons.
    rewrite (decide_True (P := x ≤ c)) by done.
    destruct (decide (x < c)); lia.
Qed.

(** And the element at index [k] from the end is the [(k+1)]-th largest. *)
Lemma sorted_lookup_kth_largest (s : list Z) (k : nat) (c : Z) :
  StronglySorted Z.le s → (k < length s)%nat →
  s !! (length s - 1 - k)%nat = Some c → kth_largest k s c.
Proof.
  intros Hs. revert k. induction Hs as [|x s Hs IH Hx]; intros k Hlen Hk; [done|].
  simpl in Hlen. destruct (decide (k = length s)) as [->|Hne].
  - replace (length (x :: s) - 1 - length s)%nat with 0%nat in Hk by (simpl; lia).
    simplify_eq/=. split; [left|]. rewrite !count_if_cons.
    rewrite decide_False by lia. rewrite decide_True by lia.
    rewrite (count_if_all (λ y, c ≤ y)) by done.
    pose proof (count_if_le_length (λ y, c < y) s). lia.
  - replace (length (x :: s) - 1 - k)%nat with (S (length s - 1 - k))
      in Hk by (simpl; lia).
    simpl in Hk. destruct (IH k) as (Hin & Hlt & Hle); [lia|done|].
    assert (x ≤ c) by (rewrite Forall_forall in Hx; auto).
    split; [by right|]. rewrite !count_if_cons.
    rewrite (decide_False (P := c < x)) by lia.
    destruct (decide (c ≤ x)); lia.
Qed.

Lemma kth_smallest_Permutation (k : nat) (l l' : list Z) (c : Z) :
  l ≡ₚ l' → kth_smallest k l c → kth_smallest k l' c.
Proof.
  intros Hl (Hin & Hlt & Hle). unfold kth_smallest.
  rewrite <-(count_if_Permutation _ l l'), <-(count_if_Permutation _ l l') by done.
  by rewrite <-Hl.
Qed.

Lemma kth_largest_Permutation (k : nat) (l l' : list Z) (c : Z) :
  l ≡ₚ l' → kth_largest k l c → kth_largest k l' c.
Proof.
  intros Hl (Hin & Hlt & Hle). unfold kth_largest.
  rewrite <-(count_if_Permutation _ l l'), <-(count_if_Permutation _ l l') by done.
  by rewrite <-Hl.
Qed.

Lemma kth_smallest_unique (k : nat) (l : list Z) (c c' : Z) :
  kth_smallest k l c → kth_smallest k l c' → c = c'.
Proof.
  intros (_ & Hlt & Hle) (_ & Hlt' & Hle').
  destruct (Z.lt_trichotomy c c') as [?|[?|?]]; [|done|].
  - opose proof* (count_if_mono (λ x, x ≤ c) (λ x, x < c') l) as Hm; [simpl; lia|lia].
  - opose proof* (count_if_mono (λ x, x ≤ c') (λ x, x < c) l) as Hm; [simpl; lia|lia].
Qed.

Lemma kth_largest_unique (k : nat) (l : list Z) (c c' : Z) :
  kth_largest k l c → kth_largest k l c' → c = c'.
Proof.
  intros (_ & Hlt & Hle) (_ & Hlt' & Hle').
  destruct (Z.lt_trichotomy c c') as [?|[?|?]]; [|done|].
  - opose proof* (count_if_mono (λ x, c' ≤ x) (λ x, c < x) l) as Hm; [simpl; lia|lia].
  - opose proof* (count_if_mono (λ x, c ≤ x) (λ x, c' < x) l) as Hm; [simpl; lia|lia].
Qed.

(** ** The promotion decision *)

Lemma promotable_idx_clamped (n : nat) (rf : Z) :
  (0 < n)%nat → 2 ≤ rf →
  promotable_idx n rf = inr (Z.max 0 (Z.of_nat n `div` rf - 1)) ∧
  0 ≤ Z.max 0 (Z.of_nat n `div` rf - 1) ≤ Z.of_nat n - 1.
Proof.
  intros Hn Hrf. unfold promotable_idx, floordiv.
  rewrite decide_False by lia.
  assert (0 ≤ Z.of_nat n `div` rf) by (apply Z.div_pos; lia).
  assert (rf * (Z.of_nat n `div` rf) ≤ Z.of_nat n) by (apply Z.mul_div_le; lia).
  split; [|nia].
  f_equal. case_decide; lia.
Qed.

Lemma _get_competing_values_nonempty (trials : list FrozenTrial) (x : Z) (key : string) :
  _get_competing_values trials x key ≠ [].
Proof. unfold _get_competing_values. by destruct (omap _ trials). Qed.

(** C1: for a non-empty list of competing values and a reduction factor of at
    least two, with [idx = max 0 (n // reduction_factor - 1)], the decision
    promotes exactly when the value is at or below the [(idx+1)]-th smallest
    competing value (minimize), or at or above the [(idx+1)]-th largest
    (maximize); that cutoff exists and is unique, and a tie promotes. *)
Theorem promotion_decision_order_statistic
    (v : Z) (l : list Z) (rf : Z) (d : StudyDirection) :
  l ≠ [] → 2 ≤ rf →
  let idx := Z.to_nat (Z.max 0 (Z.of_nat (length l) `div` rf - 1)) in
  ∃ c, is_cutoff d idx l c ∧
       (∀ c', is_cutoff d idx l c' → c' = c) ∧
       _is_trial_promotable_to_next_rung v l rf d = inr (passes d v c).
Proof.
  intros Hl Hrf idx.
  assert (0 < length l)%nat as Hn by (destruct l; [done|simpl; lia]).
  destruct (promotable_idx_clamped (length l) rf Hn Hrf) as [Hidx Hb].
  unfold _is_trial_promotable_to_next_rung. rewrite Hidx.
  pose proof (sort_StronglySorted l) as Hs.
  pose proof (sort_Permutation l) as Hp.
  destruct d; simpl.
  - destruct (getitem_nonneg (sort l) (Z.max 0 (Z.of_nat (length l) `div` rf - 1)))
      as (c & Hc & ->); [rewrite sort_length; lia|].
    assert (kth_smallest idx l c) as Hk.
    { eapply kth_smallest_Permutation; [exact Hp|].
      by apply sorted_lookup_kth_smallest. }
    exists c. split_and!; [done| |done].
    intros c' Hc'. by eapply kth_smallest_unique.
  - destruct (getitem_from_end (sort l) (Z.max 0 (Z.of_nat (length l) `div` rf - 1)))
      as (c & Hc & ->); [rewrite sort_length; lia|].
    assert (kth_largest idx l c) as Hk.
    { eapply kth_largest_Permutation; [exact Hp|].
      apply sorted_lookup_kth_largest; [done|rewrite sort_length; lia|done]. }
    exists c. split_and!; [done| |done].
    intros c' Hc'. by eapply kth_largest_unique.
Qed.

Lemma promotion_decision_order_statistic_witness :
  [5; 10; 15; 20] ≠ [] ∧ 2 ≤ 4 ∧
  ∃ c, is_cutoff MINIMIZE 0 [5; 10; 15; 20] c ∧
       (∀ c', is_cutoff MINIMIZE 0 [5; 10; 15; 20] c' → c' = c) ∧
       _is_trial_promotable_to_next_rung 10 [5; 10; 15; 20] 4 MINIMIZE
       = inr (passes MINIMIZE 10 c).
Proof.
  split; [done|]. split; [lia|].
  apply (promotion_decision_order_statistic 10 [5; 10; 15; 20] 4 MINIMIZE); [done|lia].
Defined.

(** C10: for a reduction factor of at least two and a non-empty list, which
    is what [_get_competing_values] always returns, the clamped index lies in
    [0 .. n-1], both list accesses succeed, and the decision returns a
    boolean. *)
Theorem promotion_decision_total
    (v : Z) (l : list Z) (rf : Z) (d : StudyDirection) :
  2 ≤ rf → l ≠ [] →
  (∀ trials x key, _get_competing_values trials x key ≠ []) ∧
  ∃ idx,
    promotable_idx (length l) rf = inr idx ∧
    0 ≤ idx ≤ Z.of_nat (length l) - 1 ∧
    (∃ c, getitem (sort l) idx = inr c) ∧
    (∃ c, getitem (sort l) (- (idx + 1)) = inr c) ∧
    (∃ b, _is_trial_promotable_to_next_rung v l rf d = inr b).
Proof.
  intros Hrf Hl. split; [apply _get_competing_values_nonempty|].
  assert (0 < length l)%nat as Hn by (destruct l; [done|simpl; lia]).
  destruct (promotable_idx_clamped (length l) rf Hn Hrf) as [Hidx Hb].
  eexists. split; [exact Hidx|]. split; [done|].
  destruct (getitem_nonneg (sort l) (Z.max 0 (Z.of_nat (length l) `div` rf - 1)))
    as (c1 & _ & H1); [rewrite sort_length; lia|].
  destruct (getitem_from_end (sort l) (Z.max 0 (Z.of_nat (length l) `div` rf - 1)))
    as (c2 & _ & H2); [rewrite sort_length; lia|].
  split_and!; [by eexists|by eexists|].
  unfold _is_trial_promotable_to_next_rung. rewrite Hidx.
  case_decide; [rewrite H2|rewrite H1]; by eexists.
Qed.

Lemma promotion_decision_total_witness :
  (∀ trials x key, _get_competing_values trials x key ≠ []) ∧
  ∃ idx,
    promotable_idx (length [7; 3; 9]) 2 = inr idx ∧
    0 ≤ idx ≤ Z.of_nat (length [7; 3; 9]) - 1 ∧
    (∃ c, getitem (sort [7; 3; 9]) idx = inr c) ∧
    (∃ c, getitem (sort [7; 3; 9]) (- (idx + 1)) = inr c) ∧
    (∃ b, _is_trial_promotable_to_next_rung 3 [7; 3; 9] 2 MAXIMIZE = inr b).
Proof. apply (promotion_decision_total 3 [7; 3; 9] 2 MAXIMIZE); [lia|done]. Defined.

(** ** Construction and rung geometry *)

Lemma __init___valid (a b c : Z) (self : SuccessiveHalvingPruner) :
  __init__ a b c = inr self → valid self.
Proof.
  unfold __init__, valid. repeat case_decide; intros; simplify_eq/=. lia.
Qed.

(** C8: construction raises the invalid-argument failure exactly when
    [min_resource < 1], [reduction_factor < 2] or
    [min_early_stopping_rate < 0], and otherwise returns the pruner holding
    the three parameters; in particular it fails for [min_resource = 0], for
    [reduction_factor = 1] and for [min_early_stopping_rate = -1]. *)
Theorem construction_validates (min_resource reduction_factor min_early_stopping_rate : Z) :
  (__init__ min_resource reduction_factor min_early_stopping_rate = inl ValueError
   ↔ min_resource < 1 ∨ reduction_factor < 2 ∨ min_early_stopping_rate < 0) ∧
  (__init__ min_resource reduction_factor min_early_stopping_rate
   = inr {| _min_resource := min_resource;
            _reduction_factor := reduction_factor;
            _min_early_stopping_rate := min_early_stopping_rate |}
   ↔ 1 ≤ min_resource ∧ 2 ≤ reduction_factor ∧ 0 ≤ min_early_stopping_rate) ∧
  __init__ 0 reduction_factor min_early_stopping_rate = inl ValueError ∧
  __init__ min_resource 1 min_early_stopping_rate = inl ValueError ∧
  __init__ min_resource reduction_factor (-1) = inl ValueError.
Proof.
  unfold __init__. split_and!.
  - repeat case_decide; split; intros; simplify_eq/=; try done; lia.
  - repeat case_decide; split; intros; simplify_eq/=; try done; lia.
  - done.
  - repeat case_decide; try done; lia.
  - repeat case_decide; try done; lia.
Qed.

Lemma rung_promotion_step_succ (self : SuccessiveHalvingPruner) (rung : nat) :
  0 ≤ _min_early_stopping_rate self →
  rung_promotion_step self (S rung)
  = _reduction_factor self * rung_promotion_step self rung.
Proof.
  intros Hs. unfold rung_promotion_step.
  replace (_min_early_stopping_rate self + Z.of_nat (S rung))
    with (Z.succ (_min_early_stopping_rate self + Z.of_nat rung)) by lia.
  rewrite Z.pow_succ_r by lia. lia.
Qed.

Lemma rung_promotion_step_pos (self : SuccessiveHalvingPruner) (rung : nat) :
  valid self → 1 ≤ rung_promotion_step self rung.
Proof.
  intros (Hr & Hf & Hs). unfold rung_promotion_step.
  assert (0 < _reduction_factor self ^ (_min_early_stopping_rate self + Z.of_nat rung))
    by (apply Z.pow_pos_nonneg; lia).
  nia.
Qed.

(** C9: for a valid configuration the threshold
    [min_resource * reduction_factor ^ (min_early_stopping_rate + s)] is
    strictly increasing in the rung index. *)
Theorem rung_promotion_step_strictly_increasing
    (self : SuccessiveHalvingPruner) (s s' : nat) :
  valid self → (s < s')%nat →
  rung_promotion_step self s < rung_promotion_step self s'.
Proof.
  intros Hv Hlt. induction Hlt as [|s' _ IH].
  - rewrite rung_promotion_step_succ by apply Hv.
    pose proof (rung_promotion_step_pos self s Hv). destruct Hv as (_ & ? & _). nia.
  - etrans; [exact IH|].
    rewrite rung_promotion_step_succ by apply Hv.
    pose proof (rung_promotion_step_pos self s' Hv). destruct Hv as (_ & ? & _). nia.
Qed.

Lemma rung_promotion_step_strictly_increasing_witness :
  valid {| _min_resource := 1; _reduction_factor := 4; _min_early_stopping_rate := 0 |} ∧
  (0 < 2)%nat ∧
  rung_promotion_step
    {| _min_resource := 1; _reduction_factor := 4; _min_early_stopping_rate := 0 |} 0
  < rung_promotion_step
    {| _min_resource := 1; _reduction_factor := 4; _min_early_stopping_rate := 0 |} 2.
Proof.
  assert (valid {| _min_resource := 1; _reduction_factor := 4;
                   _min_early_stopping_rate := 0 |}) as Hv
    by (unfold valid; simpl; lia).
  split; [exact Hv|]. split; [lia|].
  apply (rung_promotion_step_strictly_increasing _ 0 2 Hv). lia.
Defined.

Lemma rung_promotion_step_above_rung (self : SuccessiveHalvingPruner) (rung : nat) :
  valid self → Z.of_nat rung < rung_promotion_step self rung.
Proof.
  intros Hv. induction rung as [|rung IH].
  - pose proof (rung_promotion_step_pos self 0 Hv). lia.
  - rewrite rung_promotion_step_succ by apply Hv. destruct Hv as (_ & ? & _). nia.
Qed.

(** ** Rung markers *)

Global Instance _completed_rung_key_inj : Inj (=) (=) _completed_rung_key.
Proof.
  intros r r' Hk. unfold _completed_rung_key in Hk. simpl in Hk.
  apply (inj pretty). by simplify_eq.
Qed.

Lemma has_key_completed (attrs : gmap string Z) (rung : nat) :
  has_key attrs (_completed_rung_key rung) = true ↔ completed attrs rung.
Proof. unfold has_key, completed. by rewrite bool_decide_eq_true. Qed.

(** A dictionary cannot hold the markers of more rungs than it has entries. *)
Lemma completed_all_below_size (attrs : gmap string Z) (n : nat) :
  (∀ s, (s < n)%nat → completed attrs s) → (n ≤ size attrs)%nat.
Proof.
  intros Hall.
  set (keys := _completed_rung_key <$> seq 0 n).
  assert (NoDup keys) as Hnd by (apply (NoDup_fmap_2 _), NoDup_seq).
  assert (list_to_set keys ⊆ dom attrs) as Hsub.
  { intros k Hk. apply elem_of_list_to_set, list_elem_of_fmap in Hk as (s & -> & Hs).
    apply elem_of_seq in Hs. apply elem_of_dom, Hall. lia. }
  apply subseteq_size in Hsub.
  rewrite size_list_to_set, size_dom in Hsub by done.
  unfold keys in Hsub. by rewrite length_fmap, length_seq in Hsub.
Qed.

Lemma _get_current_rung_from_spec (fuel : nat) (attrs : gmap string Z) (rung : nat) :
  let c := _get_current_rung_from fuel attrs rung in
  (rung ≤ c ≤ rung + fuel)%nat ∧
  (∀ s, (rung ≤ s < c)%nat → completed attrs s) ∧
  ((c < rung + fuel)%nat → ¬ completed attrs c).
Proof.
  revert rung. induction fuel as [|fuel IH]; intros rung; simpl.
  { split; [lia|]. split; [intros; lia|lia]. }
  destruct (has_key attrs (_completed_rung_key rung)) eqn:Hk.
  - destruct (IH (S rung)) as (Hb & Hall & Hnot). split; [lia|]. split.
    + intros s Hs. destruct (decide (s = rung)) as [->|]; [by apply has_key_completed|].
      apply Hall. lia.
    + intros Hc. apply Hnot. lia.
  - split; [lia|]. split; [intros; lia|].
    intros _. rewrite <-has_key_completed. by rewrite Hk.
Qed.

(** [_get_current_rung] returns the smallest rung without a marker. *)
Lemma _get_current_rung_least (trial : FrozenTrial) :
  ¬ completed (system_attrs trial) (_get_current_rung trial) ∧
  ∀ s, (s < _get_current_rung trial)%nat → completed (system_attrs trial) s.
Proof.
  unfold _get_current_rung.
  destruct (_get_current_rung_from_spec (size (system_attrs trial)) (system_attrs trial) 0)
    as (Hb & Hall & Hnot).
  split; [|intros s Hs; apply Hall; lia].
  intros Hc.
  destruct (decide (_get_current_rung_from (size (system_attrs trial))
                      (system_attrs trial) 0 < size (system_attrs trial))%nat) as [Hlt|Hge].
  { by apply Hnot. }
  assert (S (size (system_attrs trial)) ≤ size (system_attrs trial))%nat; [|lia].
  apply completed_all_below_size. intros s Hs.
  destruct (decide (s = size (system_attrs trial))) as [->|].
  - replace (_get_current_rung_from (size (system_attrs trial)) (system_attrs trial) 0)
      with (size (system_attrs trial)) in Hc by lia. done.
  - apply Hall. lia.
Qed.

Lemma _get_current_rung_prefix (trial : FrozenTrial) (k : nat) :
  completed_below (system_attrs trial) k → _get_current_rung trial = k.
Proof.
  intros Hk. destruct (_get_current_rung_least trial) as [Hnot Hall].
  destruct (Nat.lt_trichotomy (_get_current_rung trial) k) as [Hlt|[?|Hgt]]; [|done|].
  - destruct Hnot. by apply Hk.
  - apply Hall, Hk in Hgt. lia.
Qed.

(** ** The store *)

Lemma find_trial_cons (trial_id : nat) (t : FrozenTrial) (l : list FrozenTrial) :
  snd <$> list_find (λ t, _trial_id t = trial_id) (t :: l)
  = if decide (_trial_id t = trial_id) then Some t
    else snd <$> list_find (λ t, _trial_id t = trial_id) l.
Proof.
  simpl. case_decide; [done|].
  by destruct (list_find _ l) as [[]|].
Qed.

Lemma get_trial_set_trial_system_attr (study : Study) (trial_id : nat) (key : string) (x : Z) :
  get_trial (set_trial_system_attr study trial_id key x) trial_id
  = with_system_attr key x <$> get_trial study trial_id.
Proof.
  unfold get_trial, set_trial_system_attr; simpl.
  induction (stored_trials (_storage study)) as [|t l IH]; [done|].
  rewrite fmap_cons, !find_trial_cons, IH. unfold write_attr.
  destruct (decide (_trial_id t = trial_id)) as [Ht|Ht]; simpl.
  - by rewrite decide_True.
  - by rewrite decide_False.
Qed.

Lemma completed_insert (attrs : gmap string Z) (rung s : nat) (x : Z) :
  completed (<[_completed_rung_key rung := x]> attrs) s ↔ s = rung ∨ completed attrs s.
Proof.
  unfold completed. rewrite lookup_insert_is_Some.
  split.
  - intros [Hk|[_ Hs]]; [left|by right].
    by apply (inj _completed_rung_key) in Hk.
  - intros [->|Hs]; [by left|].
    destruct (decide (s = rung)) as [->|Hne]; [by left|].
    right. split; [|done]. intros Hk. by apply (inj _completed_rung_key) in Hk.
Qed.

Lemma completed_below_insert (attrs : gmap string Z) (rung : nat) (x : Z) :
  completed_below attrs rung →
  completed_below (<[_completed_rung_key rung := x]> attrs) (S rung).
Proof.
  intros Hb s. rewrite completed_insert, (Hb s). lia.
Qed.

Lemma completed_below_absent (attrs : gmap string Z) (k s : nat) :
  completed_below attrs k → (k ≤ s)%nat → attrs !! _completed_rung_key s = None.
Proof.
  intros Hb Hs. apply eq_None_not_Some. intros Hc. apply Hb in Hc. lia.
Qed.

Lemma same_reports_refl (t : FrozenTrial) : same_reports t t.
Proof. done. Qed.

Lemma same_reports_with_system_attr (t t' : FrozenTrial) (key : string) (x : Z) :
  same_reports t t' → same_reports t (with_system_attr key x t').
Proof. unfold same_reports. simpl. done. Qed.

(** ** The loop of [prune] *)

Lemma _is_trial_promotable_to_next_rung_returns
    (v : Z) (l : list Z) (rf : Z) (d : StudyDirection) :
  2 ≤ rf → l ≠ [] → ∃ b, _is_trial_promotable_to_next_rung v l rf d = inr b.
Proof.
  intros Hrf Hl.
  assert (0 < length l)%nat as Hn by (destruct l; [done|simpl; lia]).
  destruct (promotable_idx_clamped (length l) rf Hn Hrf) as [Hidx Hb].
  destruct (getitem_nonneg (sort l) (Z.max 0 (Z.of_nat (length l) `div` rf - 1)))
    as (c1 & _ & H1); [rewrite sort_length; lia|].
  destruct (getitem_from_end (sort l) (Z.max 0 (Z.of_nat (length l) `div` rf - 1)))
    as (c2 & _ & H2); [rewrite sort_length; lia|].
  unfold _is_trial_promotable_to_next_rung. rewrite Hidx.
  case_decide; [rewrite H2|rewrite H1]; by eexists.
Qed.

Section prune_loop.
Context (self : SuccessiveHalvingPruner) (Hvalid : valid self).
Context (trial_id : nat) (step : Z) (v : value).

(** Started at the rung below which the stored trial is marked, with
    enough iterations, the loop returns a boolean; the stored trial is then
    marked exactly below some rung [rung' ≥ rung], every write is the marker
    of a rung at or above [rung] on this trial, and a [False] result means
    the threshold of [rung'] was not reached. *)
Lemma prune_loop_spec (fuel rung : nat) (trials : option (list FrozenTrial))
    (study : Study) (t : FrozenTrial) :
  step - Z.of_nat rung < Z.of_nat fuel → (0 < fuel)%nat →
  get_trial study trial_id = Some t →
  completed_below (system_attrs t) rung →
  ∃ res study' t' rung' new,
    prune_loop fuel self trial_id step v rung trials study = Some (inr res, study') ∧
    get_trial study' trial_id = Some t' ∧ same_reports t t' ∧
    completed_below (system_attrs t') rung' ∧
    writes_between study study' new ∧
    Forall (λ w, ∃ s, (rung ≤ s)%nat ∧ w.1 = (trial_id, _completed_rung_key s)) new ∧
    (res = false → step < rung_promotion_step self rung') ∧
    (v = NaN → study' = study).
Proof.
  revert rung trials study t.
  induction fuel as [|fuel IH]; intros rung trials study t Hfuel Hpos Ht Hb; [lia|].
  simpl. case_decide as Hstep.
  { exists false, study, t, rung, []. by split_and!. }
  destruct v as [|x] eqn:Hv.
  { exists true, study, t, rung, []. by split_and!. }
  set (key := _completed_rung_key rung).
  set (study' := set_trial_system_attr study trial_id key x).
  set (trials' := if shares_objects (_storage study) then _ else _).
  assert (get_trial study' trial_id = Some (with_system_attr key x t)) as Ht'.
  { unfold study'. by rewrite get_trial_set_trial_system_attr, Ht. }
  assert (completed_below (system_attrs (with_system_attr key x t)) (S rung)) as Hb'
    by (by apply completed_below_insert).
  destruct (_is_trial_promotable_to_next_rung_returns x
              (_get_competing_values trials' x key)
              (_reduction_factor self) (direction study)) as [b ->];
    [apply Hvalid|apply _get_competing_values_nonempty|].
  destruct b.
  - pose proof (rung_promotion_step_above_rung self rung Hvalid).
    destruct (IH (S rung) (Some trials') study' _ ltac:(lia) ltac:(lia) Ht' Hb')
      as (res & study'' & t'' & rung' & new & Hrun & Hget & Hsame & Hbel & Hw & Hnew & Hres & _).
    exists res, study'', t'', rung', (new ++ [(trial_id, key, x)]).
    split_and!; try done.
    + unfold writes_between in *. rewrite Hw. simpl. by rewrite <-app_assoc.
    + apply Forall_app. split.
      * eapply Forall_impl; [exact Hnew|]. intros w (s & ? & ?). exists s. split; [lia|done].
      * apply Forall_singleton. exists rung. by split.
  - exists true, study', (with_system_attr key x t), (S rung), [(trial_id, key, x)].
    split_and!; try done.
    apply Forall_singleton. exists rung. by split.
Qed.
End prune_loop.

(** ** Termination of the loop *)

(** More iterations than needed do not change what the loop returns. *)
Lemma prune_loop_more_fuel (self : SuccessiveHalvingPruner) (trial_id : nat)
    (step : Z) (v : value) (fuel fuel' rung : nat)
    (trials : option (list FrozenTrial)) (study : Study) (r : result bool * Study) :
  (fuel ≤ fuel')%nat →
  prune_loop fuel self trial_id step v rung trials study = Some r →
  prune_loop fuel' self trial_id step v rung trials study = Some r.
Proof.
  revert fuel' rung trials study.
  induction fuel as [|fuel IH]; intros fuel' rung trials study Hle Hrun; [done|].
  destruct fuel' as [|fuel']; [lia|]. simpl in *.
  case_decide; [done|]. destruct v as [|x]; [done|].
  destruct (_is_trial_promotable_to_next_rung _ _ _ _) as [e|[|]]; [done| |done].
  apply IH; [lia|done].
Qed.

(** A constructed pruner never exhausts the iterations [prune] allots. *)
Lemma prune_returns (self : SuccessiveHalvingPruner) (study : Study) (trial : FrozenTrial) :
  valid self → ∃ r, prune self study trial = Some r.
Proof.
  intros Hv. unfold prune.
  destruct (last_step trial) as [step|]; [|by eexists].
  destruct (intermediate_values trial !! step) as [v|]; [|by eexists].
  generalize (_get_current_rung trial) (@None (list FrozenTrial)) study.
  assert (∀ fuel rung trials study',
            step - Z.of_nat rung < Z.of_nat fuel → (0 < fuel)%nat →
            ∃ r, prune_loop fuel self (_trial_id trial) step v rung trials study' = Some r)
    as Hloop.
  { induction fuel as [|fuel IH]; intros rung trials study' Hfuel Hpos; [lia|].
    simpl. case_decide; [by eexists|]. destruct v as [|x]; [by eexists|].
    destruct (_is_trial_promotable_to_next_rung _ _ _ _) as [e|[|]]; [by eexists| |by eexists].
    pose proof (rung_promotion_step_above_rung self rung Hv).
    apply IH; lia. }
  intros rung trials study'. apply Hloop; lia.
Qed.

(** ** The prune decision *)

Lemma _get_current_rung_unique (trial : FrozenTrial) (rung : nat) :
  ¬ completed (system_attrs trial) rung →
  (∀ s, (s < rung)%nat → completed (system_attrs trial) s) →
  _get_current_rung trial = rung.
Proof.
  intros Hnot Hall. destruct (_get_current_rung_least trial) as [Hnot' Hall'].
  destruct (Nat.lt_trichotomy (_get_current_rung trial) rung) as [Hlt|[?|Hgt]]; [|done|].
  - destruct Hnot'. by apply Hall.
  - destruct Hnot. by apply Hall'.
Qed.

(** What one call of [prune] does to a trial that is read from the store and
    marked exactly below rung [k]. *)
Lemma prune_spec (self : SuccessiveHalvingPruner) (study : Study)
    (trial : FrozenTrial) (k : nat) :
  valid self →
  get_trial study (_trial_id trial) = Some trial →
  completed_below (system_attrs trial) k →
  ∃ res study' trial' k' new,
    prune self study trial = Some (res, study') ∧
    get_trial study' (_trial_id trial) = Some trial' ∧
    same_reports trial trial' ∧
    completed_below (system_attrs trial') k' ∧
    writes_between study study' new ∧
    Forall (λ w, ∃ s, (k ≤ s)%nat ∧ w.1 = (_trial_id trial, _completed_rung_key s)) new ∧
    (res = inr false →
     ∀ step, last_step trial = Some step → step < rung_promotion_step self k') ∧
    (∀ step, reported trial step NaN → study' = study).
Proof.
  intros Hv Hget Hk. unfold prune.
  destruct (last_step trial) as [step|] eqn:Hstep; last first.
  { exists (inr false), study, trial, k, []. split_and!; try done. }
  destruct (intermediate_values trial !! step) as [v|] eqn:Hval; last first.
  { exists (inl KeyError), study, trial, k, []. split_and!; try done. }
  rewrite (_get_current_rung_prefix trial k Hk).
  destruct (prune_loop_spec self Hv (_trial_id trial) step v
              (S (Z.to_nat step)) k None study trial)
    as (res & study' & t' & k' & new & Hrun & Hget' & Hsame & Hk' & Hw & Hnew & Hres & Hnan);
    [lia|lia|done|done|].
  exists (inr res), study', t', k', new. split_and!; try done.
  - intros Hr step' Hs. simplify_eq. auto.
  - intros step' [Hs Hval']. apply Hnan. congruence.
Qed.

(** C7: a trial that has reported no measurement is not pruned, and the call
    leaves the store as it was. *)
Theorem prune_without_report
    (self : SuccessiveHalvingPruner) (study : Study) (trial : FrozenTrial) :
  last_step trial = None → prune self study trial = Some (inr false, study).
Proof. intros Hstep. unfold prune. by rewrite Hstep. Qed.

Lemma prune_not_reached
    (self : SuccessiveHalvingPruner) (study : Study) (trial : FrozenTrial)
    (step : Z) (v : value) :
  reported trial step v →
  step < rung_promotion_step self (_get_current_rung trial) →
  prune self study trial = Some (inr false, study).
Proof.
  intros [Hstep Hval] Hlt. unfold prune. rewrite Hstep, Hval.
  simpl. by rewrite decide_True.
Qed.

(** C6: a trial whose last reported step is strictly below the threshold of
    its current rung, the smallest rung without a marker, is not pruned, and
    the call writes no marker. *)
Theorem prune_before_threshold
    (self : SuccessiveHalvingPruner) (study : Study) (trial : FrozenTrial)
    (step : Z) (v : value) (rung : nat) :
  reported trial step v →
  ¬ completed (system_attrs trial) rung →
  (∀ s, (s < rung)%nat → completed (system_attrs trial) s) →
  step < rung_promotion_step self rung →
  prune self study trial = Some (inr false, study).
Proof.
  intros Hrep Hnot Hall Hlt. apply (prune_not_reached self study trial step v Hrep).
  by rewrite (_get_current_rung_unique trial rung Hnot Hall).
Qed.

(** C4: a trial whose last reported value is NaN and whose last step has
    reached the threshold of its current rung is pruned, and the call writes
    no marker. *)
Theorem prune_on_nan
    (self : SuccessiveHalvingPruner) (study : Study) (trial : FrozenTrial)
    (step : Z) (rung : nat) :
  reported trial step NaN →
  ¬ completed (system_attrs trial) rung →
  (∀ s, (s < rung)%nat → completed (system_attrs trial) s) →
  rung_promotion_step self rung ≤ step →
  prune self study trial = Some (inr true, study).
Proof.
  intros [Hstep Hval] Hnot Hall Hge. unfold prune.
  rewrite Hstep, Hval, (_get_current_rung_unique trial rung Hnot Hall).
  simpl. by rewrite decide_False by lia.
Qed.

(** C5: when the trial handed to [prune] is the stored record and its markers
    form a prefix of the rungs, the call returns and the stored trial's
    markers again form a prefix. *)
Theorem prune_keeps_markers_prefix
    (self : SuccessiveHalvingPruner) (study : Study) (trial : FrozenTrial) :
  valid self →
  get_trial study (_trial_id trial) = Some trial →
  markers_are_prefix (system_attrs trial) →
  ∃ res study' trial',
    prune self study trial = Some (res, study') ∧
    get_trial study' (_trial_id trial) = Some trial' ∧
    same_reports trial trial' ∧
    markers_are_prefix (system_attrs trial').
Proof.
  intros Hv Hget [k Hk].
  destruct (prune_spec self study trial k Hv Hget Hk)
    as (res & study' & trial' & k' & new & Hrun & Hget' & Hsame & Hk' & _).
  exists res, study', trial'. split_and!; [done..|]. by exists k'.
Qed.

(** ** Calling [prune] twice *)

(** The stated form of C2 fails.  In [late_study] the first call records rung
    0 and prunes the trial, and the second call, on the trial as stored, finds
    rung 1 current with its threshold 4 not reached at step 1 and returns
    [False].  In [gap_study], where the trial's markers are not a prefix, the
    second call writes the marker of rung 3, which the trial already had. *)
Lemma prune_twice_differs :
  (prune default_pruner late_study late_trial
   = Some (inr true, set_trial_system_attr late_study 0 "completed_rung_0" 10) ∧
   get_trial (set_trial_system_attr late_study 0 "completed_rung_0" 10) 0
   = Some (with_system_attr "completed_rung_0" 10 late_trial) ∧
   prune default_pruner (set_trial_system_attr late_study 0 "completed_rung_0" 10)
     (with_system_attr "completed_rung_0" 10 late_trial)
   = Some (inr false, set_trial_system_attr late_study 0 "completed_rung_0" 10)) ∧
  (prune default_pruner gap_study gap_trial
   = Some (inr true, set_trial_system_attr gap_study 0 "completed_rung_1" 1) ∧
   get_trial (set_trial_system_attr gap_study 0 "completed_rung_1" 1) 0
   = Some (with_system_attr "completed_rung_1" 1 gap_trial) ∧
   system_attrs (with_system_attr "completed_rung_1" 1 gap_trial) !! "completed_rung_3"
   = Some 1 ∧
   ∃ study2,
     prune default_pruner (set_trial_system_attr gap_study 0 "completed_rung_1" 1)
       (with_system_attr "completed_rung_1" 1 gap_trial)
     = Some (inr false, study2) ∧
     writes_between (set_trial_system_attr gap_study 0 "completed_rung_1" 1) study2
       [(0%nat, "completed_rung_3", 1); (0%nat, "completed_rung_2", 1)]).
Proof.
  split.
  - split_and!; vm_compute; reflexivity.
  - split_and!; [vm_compute; reflexivity..|].
    eexists. split; [vm_compute; reflexivity|]. vm_compute. reflexivity.
Qed.

Lemma completed_below_empty : completed_below ∅ 0.
Proof.
  intros s. unfold completed. rewrite lookup_empty. split; [by intros []|lia].
Qed.

Lemma default_pruner_valid : valid default_pruner.
Proof. unfold valid; simpl; lia. Qed.

Lemma prune_keeps_markers_prefix_witness :
  valid default_pruner ∧
  get_trial late_study (_trial_id late_trial) = Some late_trial ∧
  markers_are_prefix (system_attrs late_trial) ∧
  ∃ res study' trial',
    prune default_pruner late_study late_trial = Some (res, study') ∧
    get_trial study' (_trial_id late_trial) = Some trial' ∧
    same_reports late_trial trial' ∧
    markers_are_prefix (system_attrs trial').
Proof.
  assert (markers_are_prefix (system_attrs late_trial)) as Hp
    by (exists 0%nat; apply completed_below_empty).
  split; [exact default_pruner_valid|]. split; [reflexivity|]. split; [exact Hp|].
  exact (prune_keeps_markers_prefix default_pruner late_study late_trial
           default_pruner_valid eq_refl Hp).
Defined.

Lemma prune_without_report_witness :
  last_step {| _trial_id := 0; last_step := None;
               intermediate_values := ∅; system_attrs := ∅ |} = None ∧
  prune default_pruner late_study
    {| _trial_id := 0; last_step := None; intermediate_values := ∅; system_attrs := ∅ |}
  = Some (inr false, late_study).
Proof.
  split; [reflexivity|].
  apply (prune_without_report default_pruner late_study). reflexivity.
Defined.

Lemma not_completed_empty (rung : nat) : ¬ completed ∅ rung.
Proof. intros Hc. apply completed_below_empty in Hc. lia. Qed.

Lemma prune_before_threshold_witness :
  reported (a_trial 0 3 7 [("completed_rung_0", 7)]) 3 (Num 7) ∧
  ¬ completed (system_attrs (a_trial 0 3 7 [("completed_rung_0", 7)])) 1 ∧
  (∀ s, (s < 1)%nat → completed (system_attrs (a_trial 0 3 7 [("completed_rung_0", 7)])) s) ∧
  3 < rung_promotion_step default_pruner 1 ∧
  prune default_pruner late_study (a_trial 0 3 7 [("completed_rung_0", 7)])
  = Some (inr false, late_study).
Proof.
  assert (reported (a_trial 0 3 7 [("completed_rung_0", 7)]) 3 (Num 7)) as Hrep
    by (split; reflexivity).
  assert (¬ completed (system_attrs (a_trial 0 3 7 [("completed_rung_0", 7)])) 1) as Hnot
    by (intros [x Hx]; vm_compute in Hx; discriminate).
  assert (∀ s, (s < 1)%nat →
            completed (system_attrs (a_trial 0 3 7 [("completed_rung_0", 7)])) s) as Hall.
  { intros s Hs. replace s with 0%nat by lia. exists 7. reflexivity. }
  assert (3 < rung_promotion_step default_pruner 1) as Hlt by (vm_compute; reflexivity).
  split; [exact Hrep|]. split; [exact Hnot|]. split; [exact Hall|]. split; [exact Hlt|].
  exact (prune_before_threshold default_pruner late_study _ 3 (Num 7) 1 Hrep Hnot Hall Hlt).
Defined.

Lemma prune_on_nan_witness :
  reported {| _trial_id := 0; last_step := Some 2;
              intermediate_values := {[2 := NaN]}; system_attrs := ∅ |} 2 NaN ∧
  ¬ completed ∅ 0 ∧
  (∀ s, (s < 0)%nat → completed ∅ s) ∧
  rung_promotion_step default_pruner 0 ≤ 2 ∧
  prune default_pruner late_study
    {| _trial_id := 0; last_step := Some 2;
       intermediate_values := {[2 := NaN]}; system_attrs := ∅ |}
  = Some (inr true, late_study).
Proof.
  assert (reported {| _trial_id := 0; last_step := Some 2;
                      intermediate_values := {[2 := NaN]}; system_attrs := ∅ |} 2 NaN)
    as Hrep by (split; reflexivity).
  assert (∀ s, (s < 0)%nat → completed ∅ s) as Hall by (intros s Hs; lia).
  assert (rung_promotion_step default_pruner 0 ≤ 2) as Hge by (vm_compute; discriminate).
  split; [exact Hrep|]. split; [exact (not_completed_empty 0)|].
  split; [exact Hall|]. split; [exact Hge|].
  exact (prune_on_nan default_pruner late_study _ 2 0 Hrep (not_completed_empty 0) Hall Hge).
Defined.

(** ** The competing values *)

Lemma omap_length_filter {A B} (f : A → option B) (l : list A) :
  length (omap f l) = length (filter (λ a, is_Some (f a)) l).
Proof.
  induction l as [|a l IH]; [done|]. rewrite filter_cons. csimpl.
  destruct (f a) eqn:Hf.
  - rewrite decide_True by done. csimpl. by rewrite IH.
  - rewrite decide_False by (by intros []). done.
Qed.

Lemma omap_count (f : FrozenTrial → option Z) (x : Z) (l : list FrozenTrial) :
  length (filter (x =.) (omap f l)) = length (filter (λ t, f t = Some x) l).
Proof.
  induction l as [|t l IH]; [done|]. rewrite (filter_cons _ t). csimpl.
  destruct (f t) as [y|] eqn:Hf.
  - rewrite filter_cons. destruct (decide (x = y)) as [->|Hne].
    + rewrite decide_True by done. csimpl. by rewrite IH.
    + rewrite decide_False by congruence. done.
  - rewrite decide_False by done. done.
Qed.

(** C3, as the code has it: the competing values are a list.  Every snapshot
    trial that holds the rung's marker contributes one entry, so a value
    recorded by several trials occurs as often as it was recorded, and the
    deciding trial's value is appended once more; only the members of the
    list, taken as a set, are the union the spec describes. *)
Theorem competing_values_are_a_list
    (trials : list FrozenTrial) (value : Z) (rung_key : string) :
  let l := _get_competing_values trials value rung_key in
  length l
  = S (length (filter (λ t, is_Some (system_attrs t !! rung_key)) trials)) ∧
  (∀ x, length (filter (x =.) l)
        = (length (filter (λ t, system_attrs t !! rung_key = Some x) trials)
           + (if decide (x = value) then 1 else 0))%nat) ∧
  (∀ x, x ∈ l ↔ x ∈ competing_value_set trials value rung_key).
Proof.
  simpl. unfold _get_competing_values, competing_value_set. split_and!.
  - rewrite length_app, omap_length_filter. simpl. lia.
  - intros x. rewrite filter_app, length_app, omap_count.
    rewrite filter_cons, filter_nil. by case_decide.
  - intros x. rewrite elem_of_app, elem_of_union, elem_of_list_to_set.
    by rewrite list_elem_of_singleton, elem_of_singleton.
Qed.

(** With a store that shares its objects the snapshot handed to
    [_get_competing_values] shows the marker [prune] has just written, so the
    deciding trial's value then occurs twice. *)
Example shared_snapshot_counts_own_value_twice :
  _get_competing_values
    (write_attr 0 "completed_rung_0" 10 <$> get_trials (a_study MINIMIZE true [late_trial]))
    10 "completed_rung_0"
  = [10; 10].
Proof. vm_compute. reflexivity. Qed.

(** The stated form of C3 fails: with the markers 1, 2, 2, 2 and the own
    value 2 the list has five entries where the set has two, and under
    [reduction_factor = 2] the decision on the list promotes while the
    decision on the set would prune. *)
Lemma competing_values_not_a_set :
  _get_competing_values tied_trials 2 "completed_rung_0" = [1; 2; 2; 2; 2] ∧
  size (competing_value_set tied_trials 2 "completed_rung_0") = 2%nat ∧
  _is_trial_promotable_to_next_rung 2
    (_get_competing_values tied_trials 2 "completed_rung_0") 2 MINIMIZE = inr true ∧
  _is_trial_promotable_to_next_rung 2
    (elements (competing_value_set tied_trials 2 "completed_rung_0")) 2 MINIMIZE
  = inr false.
Proof. split_and!; vm_compute; reflexivity. Qed.

(** * Further properties of the decision engine *)

(** The cutoff the decision compares with, for either direction. *)
Lemma decision_cutoff (v : Z) (l : list Z) (rf : Z) (d : StudyDirection) :
  l ≠ [] → 2 ≤ rf →
  ∃ c, is_cutoff d (Z.to_nat (Z.max 0 (Z.of_nat (length l) `div` rf - 1))) l c ∧
       _is_trial_promotable_to_next_rung v l rf d = inr (passes d v c).
Proof.
  intros Hl Hrf.
  assert (0 < length l)%nat as Hn by (destruct l; [done|simpl; lia]).
  destruct (promotable_idx_clamped (length l) rf Hn Hrf) as [Hidx Hb].
  unfold _is_trial_promotable_to_next_rung. rewrite Hidx.
  pose proof (sort_StronglySorted l) as Hs.
  pose proof (sort_Permutation l) as Hp.
  destruct d; simpl.
  - destruct (getitem_nonneg (sort l) (Z.max 0 (Z.of_nat (length l) `div` rf - 1)))
      as (c & Hc & ->); [rewrite sort_length; lia|].
    exists c. split; [|done].
    eapply kth_smallest_Permutation; [exact Hp|].
    by apply sorted_lookup_kth_smallest.
  - destruct (getitem_from_end (sort l) (Z.max 0 (Z.of_nat (length l) `div` rf - 1)))
      as (c & Hc & ->); [rewrite sort_length; lia|].
    exists c. split; [|done].
    eapply kth_largest_Permutation; [exact Hp|].
    apply sorted_lookup_kth_largest; [done|rewrite sort_length; lia|done].
Qed.

Lemma sort_Permutation_eq (l l' : list Z) : l ≡ₚ l' → sort l = sort l'.
Proof.
  intros Hl. apply (StronglySorted_unique Z.le); [apply sort_StronglySorted..|].
  by rewrite !sort_Permutation.
Qed.

Lemma decision_Permutation (v : Z) (l l' : list Z) (rf : Z) (d : StudyDirection) :
  l ≡ₚ l' →
  _is_trial_promotable_to_next_rung v l rf d
  = _is_trial_promotable_to_next_rung v l' rf d.
Proof.
  intros Hl. unfold _is_trial_promotable_to_next_rung.
  by rewrite (sort_Permutation_eq l l' Hl), (Permutation_length Hl).
Qed.

(** X1: the decision does not depend on the order in which the competing
    values are listed, whatever the reduction factor. *)
Theorem promotion_ignores_order
    (v : Z) (l l' : list Z) (rf : Z) (d : StudyDirection) :
  l ≡ₚ l' →
  _is_trial_promotable_to_next_rung v l rf d
  = _is_trial_promotable_to_next_rung v l' rf d.
Proof.
  apply decision_Permutation.
Qed.

Lemma promotion_ignores_order_witness :
  [3; 1; 2] ≡ₚ [1; 2; 3] ∧
  _is_trial_promotable_to_next_rung 2 [3; 1; 2] 2 MINIMIZE
  = _is_trial_promotable_to_next_rung 2 [1; 2; 3] 2 MINIMIZE.
Proof.
  assert ([3; 1; 2] ≡ₚ [1; 2; 3]) as Hp.
  { change [3; 1; 2] with ([3] ++ [1; 2]). change [1; 2; 3] with ([1; 2] ++ [3]).
    apply Permutation_app_comm. }
  split; [exact Hp|].
  exact (promotion_ignores_order 2 [3; 1; 2] [1; 2; 3] 2 MINIMIZE Hp).
Defined.

Lemma decision_by_count (v : Z) (l : list Z) (rf : Z) (d : StudyDirection) :
  l ≠ [] → 2 ≤ rf →
  _is_trial_promotable_to_next_rung v l rf d
  = inr (bool_decide
           (count_if (strictly_better d v) l
            ≤ Z.to_nat (Z.max 0 (Z.of_nat (length l) `div` rf - 1)))%nat).
Proof.
  intros Hl Hrf. destruct (decision_cutoff v l rf d Hl Hrf) as (c & Hc & ->).
  f_equal. set (idx := Z.to_nat _) in *.
  destruct d; simpl in Hc |- *; destruct Hc as (_ & Hlt & Hle); apply bool_decide_ext.
  - split.
    + intros Hv.
      opose proof* (count_if_mono (strictly_better MINIMIZE v) (λ x, x < c) l) as Hm;
        [simpl; lia|lia].
    + intros Hcnt. destruct (decide (v ≤ c)); [done|].
      opose proof* (count_if_mono (λ x, x ≤ c) (strictly_better MINIMIZE v) l) as Hm;
        [simpl; lia|lia].
  - split.
    + intros Hv.
      opose proof* (count_if_mono (strictly_better MAXIMIZE v) (λ x, c < x) l) as Hm;
        [simpl; lia|lia].
    + intros Hcnt. destruct (decide (c ≤ v)); [done|].
      opose proof* (count_if_mono (λ x, c ≤ x) (strictly_better MAXIMIZE v) l) as Hm;
        [simpl; lia|lia].
Qed.

(** X2: for a non-empty list and a reduction factor of at least two, the
    trial is promoted exactly when at most [idx] competing values are
    strictly better than its own, [idx = max 0 (n // reduction_factor - 1)]. *)
Theorem promotion_by_count (v : Z) (l : list Z) (rf : Z) (d : StudyDirection) :
  l ≠ [] → 2 ≤ rf →
  _is_trial_promotable_to_next_rung v l rf d
  = inr (bool_decide
           (count_if (strictly_better d v) l
            ≤ Z.to_nat (Z.max 0 (Z.of_nat (length l) `div` rf - 1)))%nat).
Proof. apply decision_by_count. Qed.

Lemma promotion_by_count_witness :
  [5; 10; 15; 20; 1; 2; 3; 4] ≠ [] ∧ 2 ≤ 4 ∧
  _is_trial_promotable_to_next_rung 2 [5; 10; 15; 20; 1; 2; 3; 4] 4 MINIMIZE
  = inr (bool_decide
           (count_if (strictly_better MINIMIZE 2) [5; 10; 15; 20; 1; 2; 3; 4]%Z ≤ 1)%nat).
Proof.
  split; [done|]. split; [lia|].
  apply (promotion_by_count 2 [5; 10; 15; 20; 1; 2; 3; 4] 4 MINIMIZE); [done|lia].
Defined.

(** X3: on a fixed list of competing values the decision is monotone: a
    value at least as good as one that is promoted is promoted too. *)
Theorem promotion_monotone (v v' : Z) (l : list Z) (rf : Z) (d : StudyDirection) :
  at_least_as_good d v' v →
  _is_trial_promotable_to_next_rung v l rf d = inr true →
  _is_trial_promotable_to_next_rung v' l rf d = inr true.
Proof.
  intros Hv. unfold _is_trial_promotable_to_next_rung.
  destruct (promotable_idx _ _) as [e|idx]; [done|]. simpl.
  destruct d; simpl in *.
  - destruct (getitem _ _) as [e|c]; [done|].
    intros Hp. assert (bool_decide (v ≤ c) = true) as Hc by congruence.
    apply bool_decide_eq_true in Hc.
    f_equal. apply bool_decide_eq_true. lia.
  - destruct (getitem _ _) as [e|c]; [done|].
    intros Hp. assert (bool_decide (c ≤ v) = true) as Hc by congruence.
    apply bool_decide_eq_true in Hc.
    f_equal. apply bool_decide_eq_true. lia.
Qed.

Lemma promotion_monotone_witness :
  at_least_as_good MAXIMIZE 20 15 ∧
  _is_trial_promotable_to_next_rung 15 [5; 10; 15] 4 MAXIMIZE = inr true ∧
  _is_trial_promotable_to_next_rung 20 [5; 10; 15] 4 MAXIMIZE = inr true.
Proof.
  assert (at_least_as_good MAXIMIZE 20 15) as Hg by (simpl; lia).
  assert (_is_trial_promotable_to_next_rung 15 [5; 10; 15] 4 MAXIMIZE = inr true) as Hp
    by (vm_compute; reflexivity).
  split; [exact Hg|]. split; [exact Hp|].
  exact (promotion_monotone 15 20 [5; 10; 15] 4 MAXIMIZE Hg Hp).
Defined.

Lemma getitem_reverse {A} (l : list A) (i : Z) :
  getitem (reverse l) i = getitem l (- (i + 1)).
Proof.
  unfold getitem. rewrite length_reverse.
  destruct (decide (i < 0)) as [Hi|Hi].
  - rewrite (decide_False (P := - (i + 1) < 0)) by lia.
    destruct (decide (0 ≤ Z.of_nat (length l) + i < Z.of_nat (length l))) as [Hr|Hr].
    + rewrite decide_True by lia. rewrite reverse_lookup by lia.
      by replace (length l - S (Z.to_nat (Z.of_nat (length l) + i)))%nat
        with (Z.to_nat (- (i + 1))) by lia.
    + by rewrite decide_False by lia.
  - rewrite (decide_True (P := - (i + 1) < 0)) by lia.
    destruct (decide (0 ≤ i < Z.of_nat (length l))) as [Hr|Hr].
    + rewrite decide_True by lia. rewrite reverse_lookup by lia.
      by replace (length l - S (Z.to_nat i))%nat
        with (Z.to_nat (Z.of_nat (length l) + - (i + 1))) by lia.
    + by rewrite decide_False by lia.
Qed.

Lemma getitem_fmap {A B} (f : A → B) (l : list A) (i : Z) :
  getitem (f <$> l) i
  = match getitem l i with inl e => inl e | inr x => inr (f x) end.
Proof.
  unfold getitem. rewrite length_fmap, list_lookup_fmap.
  case_decide; [|done]. by destruct (l !! _).
Qed.

(** Sorting the negated values reverses the sorted list. *)
Lemma sort_opp (l : list Z) : sort (Z.opp <$> l) = reverse (Z.opp <$> sort l).
Proof.
  apply (StronglySorted_unique Z.le); [apply sort_StronglySorted| |].
  - apply (Sorted_StronglySorted Z.le).
    apply (Sorted_reverse (flip Z.le)).
    apply (Sorted_fmap _ Z.le); [|apply (Sorted_merge_sort Z.le)].
    intros x y Hxy. unfold flip. lia.
  - by rewrite reverse_Permutation, !sort_Permutation.
Qed.

(** X4: maximizing is minimizing the negated values: the decision for
    [MAXIMIZE] on a list equals the decision for [MINIMIZE] on the negated
    value and list, whatever the reduction factor (also when it raises). *)
Theorem maximize_is_minimize_negated (v : Z) (l : list Z) (rf : Z) :
  _is_trial_promotable_to_next_rung v l rf MAXIMIZE
  = _is_trial_promotable_to_next_rung (- v) (Z.opp <$> l) rf MINIMIZE.
Proof.
  unfold _is_trial_promotable_to_next_rung. rewrite length_fmap.
  destruct (promotable_idx _ _) as [e|idx]; [done|]. simpl.
  rewrite sort_opp, getitem_reverse, getitem_fmap.
  destruct (getitem _ _) as [e|c]; [done|].
  f_equal. apply bool_decide_ext. lia.
Qed.

Lemma count_if_zero (P : Z → Prop) `{!∀ x, Decision (P x)} (l : list Z) :
  count_if P l = 0%nat → Forall (λ x, ¬ P x) l.
Proof.
  induction l as [|x l IH]; [done|]. rewrite count_if_cons.
  destruct (decide (P x)); [lia|]. intros Hc. constructor; [done|]. apply IH. lia.
Qed.

(** A value at least as good as every competing value is promoted. *)
Lemma best_is_promoted (v : Z) (l : list Z) (rf : Z) (d : StudyDirection) :
  l ≠ [] → 2 ≤ rf → Forall (at_least_as_good d v) l →
  _is_trial_promotable_to_next_rung v l rf d = inr true.
Proof.
  intros Hl Hrf Hbest. destruct (decision_cutoff v l rf d Hl Hrf) as (c & Hc & ->).
  f_equal. rewrite Forall_forall in Hbest.
  destruct d; simpl in *; destruct Hc as (Hin & _); apply bool_decide_eq_true;
    by apply Hbest.
Qed.

(** X5: while fewer than twice [reduction_factor] values compete (the
    first trials to reach a rung), the trial is promoted exactly when its
    value is at least as good as every competing value. *)
Theorem few_competitors_promote_the_best
    (v : Z) (l : list Z) (rf : Z) (d : StudyDirection) :
  l ≠ [] → 2 ≤ rf → Z.of_nat (length l) < 2 * rf →
  _is_trial_promotable_to_next_rung v l rf d
  = inr (bool_decide (Forall (at_least_as_good d v) l)).
Proof.
  intros Hl Hrf Hfew. destruct (decision_cutoff v l rf d Hl Hrf) as (c & Hc & ->).
  assert (Z.of_nat (length l) `div` rf < 2) by (apply Z.div_lt_upper_bound; lia).
  replace (Z.to_nat (Z.max 0 (Z.of_nat (length l) `div` rf - 1))) with 0%nat in Hc by lia.
  f_equal. destruct d; simpl in *; destruct Hc as (Hin & Hlt & _);
    apply bool_decide_ext; rewrite Forall_forall.
  - split; [|by intros Hall; apply Hall].
    intros Hv x Hx. apply Nat.le_0_r, count_if_zero in Hlt.
    rewrite Forall_forall in Hlt. specialize (Hlt x Hx). simpl in Hlt |- *. lia.
  - split; [|by intros Hall; apply Hall].
    intros Hv x Hx. apply Nat.le_0_r, count_if_zero in Hlt.
    rewrite Forall_forall in Hlt. specialize (Hlt x Hx). simpl in Hlt |- *. lia.
Qed.

Lemma few_competitors_promote_the_best_witness :
  [7; 3; 9] ≠ [] ∧ 2 ≤ 4 ∧ Z.of_nat (length [7; 3; 9]) < 2 * 4 ∧
  _is_trial_promotable_to_next_rung 3 [7; 3; 9] 4 MINIMIZE
  = inr (bool_decide (Forall (at_least_as_good MINIMIZE 3) [7; 3; 9])).
Proof.
  split; [done|]. split; [lia|]. split; [simpl; lia|].
  apply (few_competitors_promote_the_best 3 [7; 3; 9] 4 MINIMIZE); [done|lia|simpl; lia].
Defined.

(** X6: the failures of the decision engine: a zero reduction factor raises
    [ZeroDivisionError] on every list, and with any other reduction factor the
    empty list raises [IndexError], in either direction. *)
Theorem promotion_decision_failures (v : Z) (l : list Z) (rf : Z) (d : StudyDirection) :
  (rf = 0 → _is_trial_promotable_to_next_rung v l rf d = inl ZeroDivisionError) ∧
  (rf ≠ 0 → _is_trial_promotable_to_next_rung v [] rf d = inl IndexError).
Proof.
  split.
  - intros ->. done.
  - intros Hrf. unfold _is_trial_promotable_to_next_rung, promotable_idx, floordiv.
    rewrite decide_False by done. change (Z.of_nat (length [])) with 0.
    rewrite Z.div_0_l by done. by destruct d.
Qed.

(** * Further properties of the rung markers *)

(** X7: distinct rungs have distinct marker keys. *)
Theorem completed_rung_keys_distinct (rung rung' : nat) :
  _completed_rung_key rung = _completed_rung_key rung' ↔ rung = rung'.
Proof. split; [apply (inj _completed_rung_key)|by intros ->]. Qed.

(** X8: [_get_current_rung] returns the least rung without a marker: that
    rung is unmarked, every rung below it is marked, no unmarked rung is
    smaller, and it is at most the number of entries of the dictionary. *)
Theorem current_rung_is_least_unmarked (trial : FrozenTrial) :
  ¬ completed (system_attrs trial) (_get_current_rung trial) ∧
  (∀ s, (s < _get_current_rung trial)%nat → completed (system_attrs trial) s) ∧
  (∀ r, ¬ completed (system_attrs trial) r → (_get_current_rung trial ≤ r)%nat) ∧
  (_get_current_rung trial ≤ size (system_attrs trial))%nat.
Proof.
  destruct (_get_current_rung_least trial) as [Hnot Hall].
  split_and!; [done|done| |].
  - intros r Hr. destruct (decide (_get_current_rung trial ≤ r)%nat); [done|].
    destruct Hr. apply Hall. lia.
  - unfold _get_current_rung.
    destruct (_get_current_rung_from_spec (size (system_attrs trial))
                (system_attrs trial) 0) as (Hb & _). lia.
Qed.

(** X9: recording a marker never lowers the current rung, and recording the
    marker of the current rung raises it. *)
Theorem marking_advances_current_rung (trial : FrozenTrial) (rung : nat) (x : Z) :
  (_get_current_rung trial
   ≤ _get_current_rung (with_system_attr (_completed_rung_key rung) x trial))%nat ∧
  (rung = _get_current_rung trial →
   (_get_current_rung trial
    < _get_current_rung (with_system_attr (_completed_rung_key rung) x trial))%nat).
Proof.
  set (trial' := with_system_attr _ _ _).
  destruct (_get_current_rung_least trial) as [Hnot Hall].
  destruct (_get_current_rung_least trial') as [Hnot' Hall'].
  assert (∀ s, completed (system_attrs trial') s ↔ s = rung ∨ completed (system_attrs trial) s)
    as Hc by (intros s; apply completed_insert).
  assert (_get_current_rung trial ≤ _get_current_rung trial')%nat as Hle.
  { destruct (decide (_get_current_rung trial ≤ _get_current_rung trial')%nat); [done|].
    destruct Hnot'. apply Hc. right. apply Hall. lia. }
  split; [done|]. intros ->.
  destruct (decide (_get_current_rung trial = _get_current_rung trial')) as [Heq|]; [|lia].
  destruct Hnot'. apply Hc. by left.
Qed.

(** * Further properties of the prune decision *)

(** ** The effect of recording rungs *)

Lemma record_rungs_S (study : Study) (trial_id : nat) (x : Z) (rung m : nat) :
  record_rungs study trial_id x rung (S m)
  = record_rungs (set_trial_system_attr study trial_id (_completed_rung_key rung) x)
      trial_id x (S rung) m.
Proof. done. Qed.

Lemma with_rungs_S (x : Z) (rung m : nat) (t : FrozenTrial) :
  with_rungs x rung (S m) t
  = with_rungs x (S rung) m (with_system_attr (_completed_rung_key rung) x t).
Proof. done. Qed.

Lemma markers_written_S (trial_id : nat) (x : Z) (rung m : nat) :
  markers_written trial_id x rung (S m)
  = markers_written trial_id x (S rung) m ++ [(trial_id, _completed_rung_key rung, x)].
Proof. unfold markers_written. simpl. by rewrite reverse_cons, fmap_app. Qed.

Lemma record_rungs_journal (study : Study) (trial_id : nat) (x : Z) (rung m : nat) :
  writes_between study (record_rungs study trial_id x rung m)
    (markers_written trial_id x rung m).
Proof.
  unfold writes_between. revert study rung.
  induction m as [|m IH]; intros study rung; [done|].
  rewrite record_rungs_S, IH, markers_written_S. simpl. by rewrite <-app_assoc.
Qed.

Lemma record_rungs_settings (study : Study) (trial_id : nat) (x : Z) (rung m : nat) :
  direction (record_rungs study trial_id x rung m) = direction study ∧
  shares_objects (_storage (record_rungs study trial_id x rung m))
  = shares_objects (_storage study).
Proof.
  revert study rung. induction m as [|m IH]; intros study rung; [done|].
  rewrite record_rungs_S. destruct (IH (set_trial_system_attr study trial_id
    (_completed_rung_key rung) x) (S rung)) as [-> ->]. done.
Qed.

Lemma record_rungs_get_trial (study : Study) (trial_id : nat) (x : Z) (rung m : nat) :
  get_trial (record_rungs study trial_id x rung m) trial_id
  = with_rungs x rung m <$> get_trial study trial_id.
Proof.
  revert study rung. induction m as [|m IH]; intros study rung.
  { unfold record_rungs, with_rungs. simpl. by destruct (get_trial study trial_id). }
  rewrite record_rungs_S, IH, get_trial_set_trial_system_attr.
  destruct (get_trial study trial_id); [|done]. simpl. by rewrite with_rungs_S.
Qed.

(** The other trials keep their records, position by position. *)
Lemma record_rungs_others (study : Study) (trial_id : nat) (x : Z) (rung m : nat)
    (i : nat) (t : FrozenTrial) :
  _trial_id t ≠ trial_id →
  stored_trials (_storage study) !! i = Some t →
  stored_trials (_storage (record_rungs study trial_id x rung m)) !! i = Some t.
Proof.
  intros Hid. revert study rung. induction m as [|m IH]; intros study rung Ht; [done|].
  rewrite record_rungs_S. apply IH. simpl.
  rewrite list_lookup_fmap, Ht. simpl. unfold write_attr. by rewrite decide_False.
Qed.

Lemma record_rungs_length (study : Study) (trial_id : nat) (x : Z) (rung m : nat) :
  length (stored_trials (_storage (record_rungs study trial_id x rung m)))
  = length (stored_trials (_storage study)).
Proof.
  revert study rung. induction m as [|m IH]; intros study rung; [done|].
  rewrite record_rungs_S, IH. simpl. by rewrite length_fmap.
Qed.

Lemma with_rungs_same_reports (x : Z) (rung m : nat) (t : FrozenTrial) :
  same_reports t (with_rungs x rung m t).
Proof.
  revert t rung. induction m as [|m IH]; intros t rung; [done|].
  rewrite with_rungs_S. destruct (IH (with_system_attr (_completed_rung_key rung) x t)
    (S rung)) as (? & ? & ?). unfold same_reports in *. simpl in *. by split_and!; congruence.
Qed.

Lemma with_rungs_lookup_other (x : Z) (rung m : nat) (t : FrozenTrial) (key : string) :
  (∀ s, (rung ≤ s < rung + m)%nat → key ≠ _completed_rung_key s) →
  system_attrs (with_rungs x rung m t) !! key = system_attrs t !! key.
Proof.
  revert t rung. induction m as [|m IH]; intros t rung Hkey; [done|].
  rewrite with_rungs_S, IH by (intros s Hs; apply Hkey; lia).
  simpl. rewrite lookup_insert_ne; [done|]. intros Heq. by apply (Hkey rung); [lia|].
Qed.

Lemma with_rungs_lookup (x : Z) (rung m s : nat) (t : FrozenTrial) :
  (rung ≤ s < rung + m)%nat →
  system_attrs (with_rungs x rung m t) !! _completed_rung_key s = Some x.
Proof.
  revert t rung. induction m as [|m IH]; intros t rung Hs; [lia|].
  rewrite with_rungs_S. destruct (decide (s = rung)) as [->|Hne].
  - rewrite with_rungs_lookup_other.
    + simpl. by rewrite lookup_insert_eq.
    + intros s Hs' Heq. apply (inj _completed_rung_key) in Heq. lia.
  - apply IH. lia.
Qed.

(** ** What the loop does to the study *)

(** With a numeric value the loop records the markers of consecutive rungs,
    starting at [rung], each reached by [step]; it returns [False] below the
    threshold of the next rung, and [True] or an exception of the decision
    only after recording at least one rung. *)
Lemma prune_loop_effects (self : SuccessiveHalvingPruner) (trial_id : nat)
    (step x : Z) (fuel rung : nat) (trials : option (list FrozenTrial))
    (study study' : Study) (r : result bool) :
  prune_loop fuel self trial_id step (Num x) rung trials study = Some (r, study') →
  ∃ m, study' = record_rungs study trial_id x rung m ∧
       (∀ s, (rung ≤ s < rung + m)%nat → rung_promotion_step self s ≤ step) ∧
       (r = inr false → step < rung_promotion_step self (rung + m)) ∧
       (r ≠ inr false → (0 < m)%nat).
Proof.
  revert rung trials study.
  induction fuel as [|fuel IH]; intros rung trials study Hrun; [done|].
  simpl in Hrun. case_decide as Hstep.
  { simplify_eq. exists 0%nat. split_and!; try done.
    - intros; lia.
    - intros _. by rewrite Nat.add_0_r. }
  set (study1 := set_trial_system_attr study trial_id (_completed_rung_key rung) x) in *.
  destruct (_is_trial_promotable_to_next_rung _ _ _ _) as [e|[|]].
  - simplify_eq. exists 1%nat. split_and!; try done; [|lia].
    intros s Hs. replace s with rung by lia. lia.
  - apply IH in Hrun as (m & -> & Hreach & Hfalse & Htrue).
    exists (S m). split_and!.
    + by rewrite record_rungs_S.
    + intros s Hs. destruct (decide (s = rung)) as [->|]; [lia|]. apply Hreach. lia.
    + intros Hr. replace (rung + S m)%nat with (S rung + m)%nat by lia. auto.
    + lia.
  - simplify_eq. exists 1%nat. split_and!; try done; [|lia].
    intros s Hs. replace s with rung by lia. lia.
Qed.

(** With NaN, or with no value to read, nothing is recorded. *)
Lemma prune_effects_none (self : SuccessiveHalvingPruner) (study study' : Study)
    (trial : FrozenTrial) (r : result bool) :
  (∀ step x, ¬ reported trial step (Num x)) →
  prune self study trial = Some (r, study') → study' = study.
Proof.
  intros Hno. unfold prune.
  destruct (last_step trial) as [step|] eqn:Hstep; [|by intros; simplify_eq].
  destruct (intermediate_values trial !! step) as [[|x]|] eqn:Hval.
  - destruct (S (Z.to_nat step)) as [|fuel]; [done|]. simpl.
    case_decide; by intros; simplify_eq.
  - by destruct (Hno step x).
  - by intros; simplify_eq.
Qed.

Lemma prune_effects (self : SuccessiveHalvingPruner) (study study' : Study)
    (trial : FrozenTrial) (step x : Z) (r : result bool) :
  reported trial step (Num x) →
  prune self study trial = Some (r, study') →
  ∃ m, study' = record_rungs study (_trial_id trial) x (_get_current_rung trial) m ∧
       (∀ s, (_get_current_rung trial ≤ s < _get_current_rung trial + m)%nat →
             rung_promotion_step self s ≤ step) ∧
       (r = inr false → step < rung_promotion_step self (_get_current_rung trial + m)) ∧
       (r ≠ inr false → (0 < m)%nat).
Proof.
  intros [Hstep Hval]. unfold prune. rewrite Hstep, Hval. apply prune_loop_effects.
Qed.

(** ** Writes *)

(** X10: with a numeric last value, [prune] records exactly the markers of
    consecutive rungs starting at the trial's current rung, all on the
    deciding trial and all with its last value, and only for rungs whose
    threshold the last step has reached; a [False] result stops below the
    threshold of the next rung, and any other result has recorded at least
    one rung. *)
Theorem prune_records_reached_rungs
    (self : SuccessiveHalvingPruner) (study study' : Study) (trial : FrozenTrial)
    (step x : Z) (r : result bool) :
  reported trial step (Num x) →
  prune self study trial = Some (r, study') →
  ∃ m,
    writes_between study study'
      (markers_written (_trial_id trial) x (_get_current_rung trial) m) ∧
    (∀ s, (_get_current_rung trial ≤ s < _get_current_rung trial + m)%nat →
          rung_promotion_step self s ≤ step) ∧
    (r = inr false → step < rung_promotion_step self (_get_current_rung trial + m)) ∧
    (r ≠ inr false → (0 < m)%nat).
Proof.
  intros Hrep Hrun.
  destruct (prune_effects self study study' trial step x r Hrep Hrun)
    as (m & -> & Hreach & Hfalse & Htrue).
  exists m. split_and!; [|done..]. apply record_rungs_journal.
Qed.

Lemma late_trial_reported : reported late_trial 1 (Num 10).
Proof. split; reflexivity. Qed.

Lemma late_trial_pruned :
  prune default_pruner late_study late_trial
  = Some (inr true, set_trial_system_attr late_study 0 "completed_rung_0" 10).
Proof. vm_compute. reflexivity. Qed.

Lemma prune_records_reached_rungs_witness :
  reported late_trial 1 (Num 10) ∧
  prune default_pruner late_study late_trial
  = Some (inr true, set_trial_system_attr late_study 0 "completed_rung_0" 10) ∧
  ∃ m,
    writes_between late_study (set_trial_system_attr late_study 0 "completed_rung_0" 10)
      (markers_written (_trial_id late_trial) 10 (_get_current_rung late_trial) m) ∧
    (∀ s, (_get_current_rung late_trial ≤ s < _get_current_rung late_trial + m)%nat →
          rung_promotion_step default_pruner s ≤ 1) ∧
    (@inr exn bool true = inr false →
     1 < rung_promotion_step default_pruner (_get_current_rung late_trial + m)) ∧
    (@inr exn bool true ≠ inr false → (0 < m)%nat).
Proof.
  split; [exact late_trial_reported|]. split; [exact late_trial_pruned|].
  exact (prune_records_reached_rungs default_pruner late_study _ late_trial 1 10
           (inr true) late_trial_reported late_trial_pruned).
Defined.

(** X11: [prune] leaves the direction of the study, the number of its trials
    and the record of every other trial exactly as they were. *)
Theorem prune_touches_only_its_trial
    (self : SuccessiveHalvingPruner) (study study' : Study) (trial : FrozenTrial)
    (r : result bool) :
  prune self study trial = Some (r, study') →
  direction study' = direction study ∧
  shares_objects (_storage study') = shares_objects (_storage study) ∧
  length (stored_trials (_storage study')) = length (stored_trials (_storage study)) ∧
  ∀ i t, _trial_id t ≠ _trial_id trial →
         stored_trials (_storage study) !! i = Some t →
         stored_trials (_storage study') !! i = Some t.
Proof.
  intros Hrun.
  destruct (last_step trial) as [step|] eqn:Hstep; last first.
  { rewrite (prune_effects_none self study study' trial r); [done| |done].
    intros step x [? ?]. congruence. }
  destruct (intermediate_values trial !! step) as [[|x]|] eqn:Hval.
  - rewrite (prune_effects_none self study study' trial r); [done| |done].
    intros step' x [? ?]. congruence.
  - destruct (prune_effects self study study' trial step x r) as (m & -> & _); [done|done|].
    destruct (record_rungs_settings study (_trial_id trial) x (_get_current_rung trial) m)
      as [-> ->].
    split_and!; [done|done|apply record_rungs_length|].
    intros i t Hid Ht. by apply record_rungs_others.
  - rewrite (prune_effects_none self study study' trial r); [done| |done].
    intros step' x [? ?]. congruence.
Qed.

Lemma prune_touches_only_its_trial_witness :
  prune default_pruner late_study late_trial
  = Some (inr true, set_trial_system_attr late_study 0 "completed_rung_0" 10) ∧
  direction (set_trial_system_attr late_study 0 "completed_rung_0" 10)
  = direction late_study ∧
  shares_objects (_storage (set_trial_system_attr late_study 0 "completed_rung_0" 10))
  = shares_objects (_storage late_study) ∧
  length (stored_trials (_storage (set_trial_system_attr late_study 0 "completed_rung_0" 10)))
  = length (stored_trials (_storage late_study)) ∧
  ∀ i t, _trial_id t ≠ _trial_id late_trial →
         stored_trials (_storage late_study) !! i = Some t →
         stored_trials (_storage (set_trial_system_attr late_study 0 "completed_rung_0" 10))
           !! i = Some t.
Proof.
  split; [exact late_trial_pruned|].
  exact (prune_touches_only_its_trial default_pruner late_study _ late_trial
           (inr true) late_trial_pruned).
Defined.

(** X12: after [prune], the stored trial reads back the trial's last value
    under the key of every rung the call recorded, keeps every other
    attribute, and keeps its reported measurements. *)
Theorem prune_markers_read_back
    (self : SuccessiveHalvingPruner) (study study' : Study) (trial t : FrozenTrial)
    (step x : Z) (r : result bool) :
  reported trial step (Num x) →
  get_trial study (_trial_id trial) = Some t →
  prune self study trial = Some (r, study') →
  ∃ m t',
    writes_between study study'
      (markers_written (_trial_id trial) x (_get_current_rung trial) m) ∧
    get_trial study' (_trial_id trial) = Some t' ∧
    same_reports t t' ∧
    (∀ s, (_get_current_rung trial ≤ s < _get_current_rung trial + m)%nat →
          system_attrs t' !! _completed_rung_key s = Some x) ∧
    (∀ key, (∀ s, (_get_current_rung trial ≤ s < _get_current_rung trial + m)%nat →
                  key ≠ _completed_rung_key s) →
            system_attrs t' !! key = system_attrs t !! key).
Proof.
  intros Hrep Hget Hrun.
  destruct (prune_effects self study study' trial step x r Hrep Hrun) as (m & -> & _).
  exists m, (with_rungs x (_get_current_rung trial) m t). split_and!.
  - apply record_rungs_journal.
  - by rewrite record_rungs_get_trial, Hget.
  - apply with_rungs_same_reports.
  - intros s Hs. by apply with_rungs_lookup.
  - intros key Hkey. by apply with_rungs_lookup_other.
Qed.

Lemma prune_markers_read_back_witness :
  reported late_trial 1 (Num 10) ∧
  get_trial late_study (_trial_id late_trial) = Some late_trial ∧
  prune default_pruner late_study late_trial
  = Some (inr true, set_trial_system_attr late_study 0 "completed_rung_0" 10) ∧
  ∃ m t',
    writes_between late_study (set_trial_system_attr late_study 0 "completed_rung_0" 10)
      (markers_written (_trial_id late_trial) 10 (_get_current_rung late_trial) m) ∧
    get_trial (set_trial_system_attr late_study 0 "completed_rung_0" 10)
      (_trial_id late_trial) = Some t' ∧
    same_reports late_trial t' ∧
    (∀ s, (_get_current_rung late_trial ≤ s < _get_current_rung late_trial + m)%nat →
          system_attrs t' !! _completed_rung_key s = Some 10) ∧
    (∀ key, (∀ s, (_get_current_rung late_trial ≤ s < _get_current_rung late_trial + m)%nat →
                  key ≠ _completed_rung_key s) →
            system_attrs t' !! key = system_attrs late_trial !! key).
Proof.
  split; [exact late_trial_reported|]. split; [reflexivity|].
  split; [exact late_trial_pruned|].
  exact (prune_markers_read_back default_pruner late_study _ late_trial late_trial 1 10
           (inr true) late_trial_reported eq_refl late_trial_pruned).
Defined.

(** ** Thresholds *)

Lemma rung_promotion_step_mono (self : SuccessiveHalvingPruner) (s s' : nat) :
  valid self → (s ≤ s')%nat →
  rung_promotion_step self s ≤ rung_promotion_step self s'.
Proof.
  intros Hv Hle. induction Hle as [|s' _ IH]; [done|].
  etrans; [exact IH|]. rewrite rung_promotion_step_succ by apply Hv.
  pose proof (rung_promotion_step_pos self s' Hv). destruct Hv as (_ & ? & _). nia.
Qed.

(** X13: the thresholds of a valid configuration grow geometrically: each is
    [reduction_factor] times the one before, and the threshold of rung [s] is
    at least [2 ^ s]. *)
Theorem rung_promotion_step_geometric (self : SuccessiveHalvingPruner) (s : nat) :
  valid self →
  rung_promotion_step self (S s) = _reduction_factor self * rung_promotion_step self s ∧
  2 ^ Z.of_nat s ≤ rung_promotion_step self s.
Proof.
  intros Hv. split; [apply rung_promotion_step_succ, Hv|].
  induction s as [|s IH].
  - pose proof (rung_promotion_step_pos self 0 Hv). simpl. lia.
  - rewrite rung_promotion_step_succ by apply Hv.
    replace (Z.of_nat (S s)) with (Z.succ (Z.of_nat s)) by lia.
    rewrite Z.pow_succ_r by lia. destruct Hv as (_ & ? & _). nia.
Qed.

Lemma rung_promotion_step_geometric_witness :
  valid default_pruner ∧
  rung_promotion_step default_pruner (S 2)
  = _reduction_factor default_pruner * rung_promotion_step default_pruner 2 ∧
  2 ^ Z.of_nat 2 ≤ rung_promotion_step default_pruner 2.
Proof.
  split; [exact default_pruner_valid|].
  exact (rung_promotion_step_geometric default_pruner 2 default_pruner_valid).
Defined.

(** ** Results *)

Lemma prune_loop_returns_bool (self : SuccessiveHalvingPruner) (trial_id : nat)
    (step : Z) (v : value) (fuel rung : nat) (trials : option (list FrozenTrial))
    (study study' : Study) (r : result bool) :
  valid self →
  prune_loop fuel self trial_id step v rung trials study = Some (r, study') →
  ∃ b, r = inr b.
Proof.
  intros Hv. revert rung trials study.
  induction fuel as [|fuel IH]; intros rung trials study Hrun; [done|].
  simpl in Hrun. case_decide; [by simplify_eq; eexists|].
  destruct v as [|x]; [by simplify_eq; eexists|].
  match type of Hrun with
  | context [_is_trial_promotable_to_next_rung ?a ?l ?rf ?d] =>
      destruct (_is_trial_promotable_to_next_rung_returns a l rf d) as [b Hb];
        [apply Hv|apply _get_competing_values_nonempty|rewrite Hb in Hrun]
  end.
  destruct b; [by eapply IH|by simplify_eq; eexists].
Qed.

(** X15: a trial is never pruned before it has executed
    [min_resource * reduction_factor ^ min_early_stopping_rate] steps, the
    completion point of the first rung, whatever its value and markers; the
    call then writes nothing. *)
Theorem prune_never_before_first_rung
    (self : SuccessiveHalvingPruner) (study : Study) (trial : FrozenTrial)
    (step : Z) (v : value) :
  valid self →
  reported trial step v →
  step < _min_resource self * _reduction_factor self ^ _min_early_stopping_rate self →
  prune self study trial = Some (inr false, study).
Proof.
  intros Hv Hrep Hlt. apply (prune_not_reached self study trial step v Hrep).
  eapply Z.lt_le_trans; [|apply (rung_promotion_step_mono self 0); [done|lia]].
  unfold rung_promotion_step. by rewrite Z.add_0_r.
Qed.

Lemma prune_never_before_first_rung_witness :
  valid {| _min_resource := 3; _reduction_factor := 2; _min_early_stopping_rate := 2 |} ∧
  reported (a_trial 0 11 7 [("completed_rung_0", 7); ("completed_rung_1", 7)]) 11 (Num 7) ∧
  11 < 3 * 2 ^ 2 ∧
  prune {| _min_resource := 3; _reduction_factor := 2; _min_early_stopping_rate := 2 |}
    late_study (a_trial 0 11 7 [("completed_rung_0", 7); ("completed_rung_1", 7)])
  = Some (inr false, late_study).
Proof.
  assert (valid {| _min_resource := 3; _reduction_factor := 2;
                   _min_early_stopping_rate := 2 |}) as Hv
    by (unfold valid; simpl; lia).
  assert (reported (a_trial 0 11 7 [("completed_rung_0", 7); ("completed_rung_1", 7)])
            11 (Num 7)) as Hrep by (split; reflexivity).
  assert (11 < 3 * 2 ^ 2) as Hlt by (vm_compute; reflexivity).
  split; [exact Hv|]. split; [exact Hrep|]. split; [exact Hlt|].
  exact (prune_never_before_first_rung _ late_study _ 11 (Num 7) Hv Hrep Hlt).
Defined.

(** X16: when [prune] does not prune a stored trial whose markers form the
    prefix below rung [k], the stored trial afterwards holds a marker for
    exactly the rungs below [k] and the rungs whose threshold its last step
    has reached: every reached rung is passed in one call. *)
Theorem unpruned_trial_marks_reached_rungs
    (self : SuccessiveHalvingPruner) (study study' : Study) (trial : FrozenTrial)
    (step : Z) (v : value) (k : nat) :
  valid self →
  get_trial study (_trial_id trial) = Some trial →
  completed_below (system_attrs trial) k →
  reported trial step v →
  prune self study trial = Some (inr false, study') →
  ∃ trial',
    get_trial study' (_trial_id trial) = Some trial' ∧
    ∀ s, completed (system_attrs trial') s
         ↔ (s < k)%nat ∨ rung_promotion_step self s ≤ step.
Proof.
  intros Hv Hget Hk Hrep Hrun.
  pose proof (_get_current_rung_prefix trial k Hk) as Hcur.
  destruct v as [|x].
  - assert (study' = study) as ->.
    { apply (prune_effects_none self study study' trial (inr false)); [|done].
      intros step' x [Hs Hx]. destruct Hrep as [Hs' Hx']. congruence. }
    exists trial. split; [done|]. intros s. rewrite (Hk s).
    assert (step < rung_promotion_step self k) as Hlt.
    { destruct Hrep as [Hs Hx]. unfold prune in Hrun. rewrite Hs, Hx, Hcur in Hrun.
      simpl in Hrun. by case_decide. }
    split; [by left|]. intros [?|Hreach]; [done|].
    destruct (decide (s < k)%nat); [done|].
    pose proof (rung_promotion_step_mono self k s Hv). lia.
  - destruct (prune_effects self study study' trial step x (inr false) Hrep Hrun)
      as (m & -> & Hreach & Hfalse & _).
    rewrite Hcur in *. specialize (Hfalse eq_refl).
    exists (with_rungs x k m trial). split; [by rewrite record_rungs_get_trial, Hget|].
    intros s. unfold completed.
    destruct (decide (k ≤ s < k + m)%nat) as [Hin|Hout].
    + rewrite with_rungs_lookup by done. split; [|by eexists].
      intros _. right. by apply Hreach.
    + rewrite with_rungs_lookup_other; last first.
      { intros s' Hs' Heq. apply (inj _completed_rung_key) in Heq. lia. }
      fold (completed (system_attrs trial) s). rewrite (Hk s).
      split; [by left|]. intros [?|Hr]; [done|].
      destruct (decide (s < k)%nat); [done|].
      pose proof (rung_promotion_step_mono self (k + m) s Hv). lia.
Qed.

Lemma leading_trial_reported : reported leading_trial 5 (Num 1).
Proof. split; reflexivity. Qed.

Lemma leading_trial_passes :
  prune default_pruner leading_study leading_trial
  = Some (inr false, record_rungs leading_study 0 1 0 2).
Proof. vm_compute. reflexivity. Qed.

Lemma unpruned_trial_marks_reached_rungs_witness :
  valid default_pruner ∧
  get_trial leading_study (_trial_id leading_trial) = Some leading_trial ∧
  completed_below (system_attrs leading_trial) 0 ∧
  reported leading_trial 5 (Num 1) ∧
  prune default_pruner leading_study leading_trial
  = Some (inr false, record_rungs leading_study 0 1 0 2) ∧
  ∃ trial',
    get_trial (record_rungs leading_study 0 1 0 2) (_trial_id leading_trial)
    = Some trial' ∧
    ∀ s, completed (system_attrs trial') s
         ↔ (s < 0)%nat ∨ rung_promotion_step default_pruner s ≤ 5.
Proof.
  split; [exact default_pruner_valid|]. split; [reflexivity|].
  split; [exact completed_below_empty|]. split; [exact leading_trial_reported|].
  split; [exact leading_trial_passes|].
  exact (unpruned_trial_marks_reached_rungs default_pruner leading_study _ leading_trial
           5 (Num 1) 0 default_pruner_valid eq_refl completed_below_empty
           leading_trial_reported leading_trial_passes).
Defined.

(** ** The best trial *)

Lemma at_least_as_good_refl (d : StudyDirection) (x : Z) : at_least_as_good d x x.
Proof. destruct d; simpl; lia. Qed.

Lemma no_better_marker_write (d : StudyDirection) (x : Z) (trials : list FrozenTrial)
    (trial_id rung : nat) :
  no_better_marker d x trials →
  no_better_marker d x (write_attr trial_id (_completed_rung_key rung) x <$> trials).
Proof.
  intros Hts t' s y Ht' Hy. apply list_elem_of_fmap in Ht' as (t & -> & Ht).
  unfold write_attr in Hy. case_decide; [|by eapply Hts].
  simpl in Hy. apply lookup_insert_Some in Hy as [[_ <-]|[_ Hy]].
  - apply at_least_as_good_refl.
  - by eapply Hts.
Qed.

Lemma no_better_marker_competing (d : StudyDirection) (x : Z) (trials : list FrozenTrial)
    (rung : nat) :
  no_better_marker d x trials →
  Forall (at_least_as_good d x) (_get_competing_values trials x (_completed_rung_key rung)).
Proof.
  intros Hts. unfold _get_competing_values. apply Forall_app. split.
  - apply Forall_forall. intros y Hy. apply list_elem_of_omap in Hy as (t & Ht & Hy).
    by eapply Hts.
  - apply Forall_singleton, at_least_as_good_refl.
Qed.

Lemma prune_loop_best (self : SuccessiveHalvingPruner) (trial_id : nat) (step x : Z)
    (d : StudyDirection) (fuel rung : nat) (trials : option (list FrozenTrial))
    (study : Study) :
  valid self →
  step - Z.of_nat rung < Z.of_nat fuel → (0 < fuel)%nat →
  direction study = d →
  no_better_marker d x (get_trials study) →
  (∀ ts, trials = Some ts → no_better_marker d x ts) →
  ∃ study', prune_loop fuel self trial_id step (Num x) rung trials study
            = Some (inr false, study').
Proof.
  intros Hv. revert rung trials study.
  induction fuel as [|fuel IH]; intros rung trials study Hfuel Hpos Hd Hst Hts; [lia|].
  simpl. case_decide as Hstep; [by eexists|].
  set (trials0 := match trials with Some ts => ts | None => get_trials study end).
  assert (no_better_marker d x trials0) as H0.
  { unfold trials0. destruct trials as [ts|]; [by apply Hts|done]. }
  set (trials' := if shares_objects (_storage study) then _ else _).
  assert (no_better_marker d x trials') as H1.
  { unfold trials'. destruct (shares_objects _); [by apply no_better_marker_write|done]. }
  rewrite Hd, (best_is_promoted x _ _ d);
    [|apply _get_competing_values_nonempty|apply Hv|by apply no_better_marker_competing].
  pose proof (rung_promotion_step_above_rung self rung Hv).
  apply IH; [lia|lia|done| |].
  - by apply no_better_marker_write.
  - intros ts [= <-]. done.
Qed.

(** X17: a trial whose value is at least as good as every rung marker
    recorded in the study (in particular a trial that is alone) is never
    pruned by a constructed pruner. *)
Theorem best_trial_is_never_pruned
    (self : SuccessiveHalvingPruner) (study : Study) (trial : FrozenTrial)
    (step x : Z) :
  valid self →
  reported trial step (Num x) →
  no_better_marker (direction study) x (get_trials study) →
  ∃ study', prune self study trial = Some (inr false, study').
Proof.
  intros Hv [Hstep Hval] Hbest. unfold prune. rewrite Hstep, Hval.
  eapply prune_loop_best; [done|lia|lia|done|done|done].
Qed.

Lemma leading_trial_best :
  no_better_marker (direction leading_study) 1 (get_trials leading_study).
Proof.
  intros t s y Ht Hy. apply elem_of_cons in Ht as [->|Ht].
  { simpl in Hy. by rewrite lookup_empty in Hy. }
  apply list_elem_of_singleton in Ht as ->. simpl in Hy.
  apply lookup_insert_Some in Hy as [[_ <-]|[_ Hy]]; [simpl; lia|].
  by rewrite lookup_empty in Hy.
Qed.

Lemma best_trial_is_never_pruned_witness :
  valid default_pruner ∧
  reported leading_trial 5 (Num 1) ∧
  no_better_marker (direction leading_study) 1 (get_trials leading_study) ∧
  ∃ study', prune default_pruner leading_study leading_trial = Some (inr false, study').
Proof.
  split; [exact default_pruner_valid|]. split; [exact leading_trial_reported|].
  split; [exact leading_trial_best|].
  exact (best_trial_is_never_pruned default_pruner leading_study leading_trial 5 1
           default_pruner_valid leading_trial_reported leading_trial_best).
Defined.

(** * Further properties: arrival and enumeration order *)

(** X18: a competitor that arrives with a value not strictly better than
    the trial's never turns a promotion into a prune. *)
Theorem newcomer_not_better_keeps_promotion
    (v y : Z) (l : list Z) (rf : Z) (d : StudyDirection) :
  l ≠ [] → 2 ≤ rf → ¬ strictly_better d v y →
  _is_trial_promotable_to_next_rung v l rf d = inr true →
  _is_trial_promotable_to_next_rung v (l ++ [y]) rf d = inr true.
Proof.
  intros Hl Hrf Hy. rewrite !decision_by_count by (done || by destruct l).
  intros Hp. f_equal. assert (∀ b, @inr exn bool b = inr true → b = true) as Hinj
    by (intros b Hb; congruence).
  apply Hinj, bool_decide_eq_true in Hp. apply bool_decide_eq_true.
  unfold count_if in *. rewrite filter_app, !length_app, filter_cons, filter_nil.
  rewrite decide_False by done. simpl.
  assert (Z.of_nat (length l) `div` rf ≤ Z.of_nat (length l + 1) `div` rf)
    by (apply Z.div_le_mono; lia).
  lia.
Qed.

Lemma newcomer_not_better_keeps_promotion_witness :
  [5; 10; 15] ≠ [] ∧ 2 ≤ 4 ∧ ¬ strictly_better MINIMIZE 5 7 ∧
  _is_trial_promotable_to_next_rung 5 [5; 10; 15] 4 MINIMIZE = inr true ∧
  _is_trial_promotable_to_next_rung 5 ([5; 10; 15] ++ [7]) 4 MINIMIZE = inr true.
Proof.
  assert (¬ strictly_better MINIMIZE 5 7) as Hy by (simpl; lia).
  assert (_is_trial_promotable_to_next_rung 5 [5; 10; 15] 4 MINIMIZE = inr true) as Hp
    by (vm_compute; reflexivity).
  split; [done|]. split; [lia|]. split; [exact Hy|]. split; [exact Hp|].
  apply (newcomer_not_better_keeps_promotion 5 7 [5; 10; 15] 4 MINIMIZE); [done|lia|exact Hy|exact Hp].
Defined.

Lemma same_up_to_order_set (study1 study2 : Study) (trial_id : nat) (key : string) (x : Z) :
  same_up_to_order study1 study2 →
  same_up_to_order (set_trial_system_attr study1 trial_id key x)
                   (set_trial_system_attr study2 trial_id key x).
Proof.
  intros (Hd & Hs & Hj & Hp). unfold same_up_to_order. simpl.
  split_and!; [done|done|by rewrite Hj|by apply fmap_Permutation].
Qed.

Lemma prune_loop_same_up_to_order (self : SuccessiveHalvingPruner) (trial_id : nat)
    (step : Z) (v : value) (fuel rung : nat) (trials1 trials2 : option (list FrozenTrial))
    (study1 study2 study1' : Study) (r : result bool) :
  same_up_to_order study1 study2 →
  option_Forall2 (≡ₚ) trials1 trials2 →
  prune_loop fuel self trial_id step v rung trials1 study1 = Some (r, study1') →
  ∃ study2',
    prune_loop fuel self trial_id step v rung trials2 study2 = Some (r, study2') ∧
    same_up_to_order study1' study2'.
Proof.
  revert rung trials1 trials2 study1 study2.
  induction fuel as [|fuel IH]; intros rung trials1 trials2 study1 study2 Hst Htr Hrun;
    [done|].
  simpl in *. case_decide; [by simplify_eq; eexists|].
  destruct v as [|x]; [by simplify_eq; eexists|].
  pose proof Hst as (Hd & Hs & Hj & Hp).
  set (ts1 := match trials1 with Some ts => ts | None => get_trials study1 end) in *.
  set (ts2 := match trials2 with Some ts => ts | None => get_trials study2 end).
  assert (ts1 ≡ₚ ts2) as Hts by (unfold ts1, ts2; by destruct Htr).
  set (ts1' := if shares_objects (_storage study1) then _ else ts1) in *.
  set (ts2' := if shares_objects (_storage study2) then _ else ts2).
  assert (ts1' ≡ₚ ts2') as Hts'.
  { unfold ts1', ts2'. rewrite Hs.
    destruct (shares_objects (_storage study2)); [by apply fmap_Permutation|done]. }
  rewrite <-Hd.
  rewrite <-(decision_Permutation x
               (_get_competing_values ts1' x (_completed_rung_key rung))
               (_get_competing_values ts2' x (_completed_rung_key rung)));
    last first.
  { unfold _get_competing_values. apply Permutation_app_tail.
    by apply omap_Permutation. }
  destruct (_is_trial_promotable_to_next_rung _ _ _ _) as [e|[|]].
  - simplify_eq. eexists. split; [done|]. by apply same_up_to_order_set.
  - eapply IH; [|by constructor|exact Hrun]. by apply same_up_to_order_set.
  - simplify_eq. eexists. split; [done|]. by apply same_up_to_order_set.
Qed.

(** X19: the result of [prune] does not depend on the order in which the
    store lists the trials: on a study that differs only in that order it
    returns the same result and leaves a study that again differs only in
    that order. *)
Theorem prune_ignores_trial_order
    (self : SuccessiveHalvingPruner) (study1 study2 study1' : Study)
    (trial : FrozenTrial) (r : result bool) :
  same_up_to_order study1 study2 →
  prune self study1 trial = Some (r, study1') →
  ∃ study2',
    prune self study2 trial = Some (r, study2') ∧ same_up_to_order study1' study2'.
Proof.
  intros Hst. unfold prune.
  destruct (last_step trial) as [step|]; [|by intros; simplify_eq; eexists].
  destruct (intermediate_values trial !! step) as [v|]; [|by intros; simplify_eq; eexists].
  apply prune_loop_same_up_to_order; [done|constructor].
Qed.

Lemma leading_study_orders : same_up_to_order leading_study leading_study_swapped.
Proof.
  unfold same_up_to_order. simpl. split_and!; [done..|]. apply Permutation_swap.
Qed.

Lemma prune_ignores_trial_order_witness :
  same_up_to_order leading_study leading_study_swapped ∧
  prune default_pruner leading_study leading_trial
  = Some (inr false, record_rungs leading_study 0 1 0 2) ∧
  ∃ study2',
    prune default_pruner leading_study_swapped leading_trial = Some (inr false, study2') ∧
    same_up_to_order (record_rungs leading_study 0 1 0 2) study2'.
Proof.
  split; [exact leading_study_orders|]. split; [exact leading_trial_passes|].
  exact (prune_ignores_trial_order default_pruner leading_study leading_study_swapped _
           leading_trial (inr false) leading_study_orders leading_trial_passes).
Defined.

(** * Calling [prune] twice *)

Lemma with_rungs_completed_below (x : Z) (k m : nat) (t : FrozenTrial) :
  completed_below (system_attrs t) k →
  completed_below (system_attrs (with_rungs x k m t)) (k + m).
Proof.
  intros Hk s. unfold completed.
  destruct (decide (k ≤ s < k + m)%nat) as [Hin|Hout].
  - rewrite with_rungs_lookup by done. split; [lia|by eexists].
  - rewrite with_rungs_lookup_other; last first.
    { intros s' Hs' Heq. apply (inj _completed_rung_key) in Heq. lia. }
    fold (completed (system_attrs t) s). rewrite (Hk s). lia.
Qed.

(** C2, as the code has it: for a stored trial whose markers form a prefix,
    two calls in succession, the second on the trial as read back from the
    store with nothing else changed, both return; every marker the second
    call writes is for this trial and a rung it had no marker for; when the
    first call returned [False] the second returns [False] and writes
    nothing; and when the last value is NaN both calls return the same and
    write nothing.  When the first call pruned on a numeric value it has
    recorded the rung at which the promotion failed: the stored trial's
    current rung has moved past the trial's, its last marked rung holds the
    value and was reached by the step; the second call resumes at that next
    rung, returns [False] without writing when its threshold is not reached,
    and otherwise records it and is decided from there on. *)
Theorem prune_twice
    (self : SuccessiveHalvingPruner) (study : Study) (trial : FrozenTrial) :
  valid self →
  get_trial study (_trial_id trial) = Some trial →
  markers_are_prefix (system_attrs trial) →
  ∃ r1 study1 trial1 r2 study2 new,
    prune self study trial = Some (r1, study1) ∧
    get_trial study1 (_trial_id trial) = Some trial1 ∧
    same_reports trial trial1 ∧
    prune self study1 trial1 = Some (r2, study2) ∧
    writes_between study1 study2 new ∧
    Forall (λ w, w.1.1 = _trial_id trial ∧ system_attrs trial1 !! w.1.2 = None) new ∧
    (r1 = inr false → r2 = inr false ∧ study2 = study1) ∧
    (∀ step, reported trial step NaN → r2 = r1 ∧ study2 = study1) ∧
    (∀ step x, reported trial step (Num x) → r1 = inr true →
       (_get_current_rung trial < _get_current_rung trial1)%nat ∧
       system_attrs trial1 !! _completed_rung_key (_get_current_rung trial1 - 1) = Some x ∧
       rung_promotion_step self (_get_current_rung trial1 - 1) ≤ step ∧
       (step < rung_promotion_step self (_get_current_rung trial1) →
        r2 = inr false ∧ study2 = study1) ∧
       ∃ m2,
         new = markers_written (_trial_id trial) x (_get_current_rung trial1) m2 ∧
         (rung_promotion_step self (_get_current_rung trial1) ≤ step → (0 < m2)%nat) ∧
         (r2 = inr false →
          step < rung_promotion_step self (_get_current_rung trial1 + m2)) ∧
         (r2 ≠ inr false → (0 < m2)%nat)).
Proof.
  intros Hv Hget [k Hk].
  destruct (prune_spec self study trial k Hv Hget Hk)
    as (r1 & study1 & trial1 & k1 & new1 & Hrun1 & Hget1 & Hsame1 & Hk1 & _ & _ & Hfalse1 & Hnan1).
  destruct Hsame1 as (Hid & Hlast & Hvals).
  rewrite <-Hid in Hget1.
  destruct (prune_spec self study1 trial1 k1 Hv Hget1 Hk1)
    as (r2 & study2 & trial2 & k2 & new2 & Hrun2 & _ & _ & _ & Hw2 & Hnew2 & _).
  rewrite Hid in Hget1.
  exists r1, study1, trial1, r2, study2, new2. split_and!; try done.
  - eapply Forall_impl; [exact Hnew2|]. intros [[i key] x] (s & Hs & Hw); simplify_eq/=.
    split; [done|]. by eapply completed_below_absent.
  - intros ->.
    assert (prune self study1 trial1 = Some (inr false, study1)) as Hrun2'; last first.
    { rewrite Hrun2' in Hrun2. by simplify_eq. }
    destruct (last_step trial) as [step|] eqn:Hstep; last first.
    { unfold prune. by rewrite Hlast. }
    destruct (intermediate_values trial !! step) as [v|] eqn:Hval; last first.
    { unfold prune in Hrun1. rewrite Hstep, Hval in Hrun1. by simplify_eq. }
    apply (prune_not_reached self study1 trial1 step v).
    + split; congruence.
    + rewrite (_get_current_rung_prefix trial1 k1 Hk1). by apply Hfalse1.
  - intros step Hrep. pose proof (Hnan1 step Hrep) as ->.
    assert (trial1 = trial) as -> by congruence.
    rewrite Hrun1 in Hrun2. by simplify_eq.
  - intros step x Hrep ->.
    destruct (prune_effects self study study1 trial step x (inr true) Hrep Hrun1)
      as (m1 & Hst1 & Hreach1 & _ & Hpos1).
    specialize (Hpos1 ltac:(done)).
    rewrite (_get_current_rung_prefix trial k Hk) in *.
    assert (trial1 = with_rungs x k m1 trial) as Htrial1.
    { rewrite Hst1, record_rungs_get_trial, Hget in Hget1. simpl in Hget1. congruence. }
    assert (_get_current_rung trial1 = (k + m1)%nat) as Hcur1.
    { rewrite Htrial1. by apply _get_current_rung_prefix, with_rungs_completed_below. }
    assert (reported trial1 step (Num x)) as Hrep1.
    { destruct Hrep as [Hs Hx]. split; congruence. }
    destruct (prune_effects self study1 study2 trial1 step x r2 Hrep1 Hrun2)
      as (m2 & Hst2 & _ & Hfalse2 & Htrue2).
    rewrite Hcur1, Hid in *. split_and!.
    + lia.
    + rewrite Htrial1. apply with_rungs_lookup. lia.
    + apply Hreach1. lia.
    + intros Hlt.
      assert (prune self study1 trial1 = Some (inr false, study1)) as Hrun2'.
      { apply (prune_not_reached self study1 trial1 step (Num x) Hrep1). by rewrite Hcur1. }
      rewrite Hrun2' in Hrun2. by simplify_eq.
    + exists m2. split_and!; [|
        |done|done].
      * pose proof (record_rungs_journal study1 (_trial_id trial) x (k + m1) m2) as Hj.
        rewrite <-Hst2 in Hj. unfold writes_between in *. rewrite Hw2 in Hj.
        by apply app_inv_tail in Hj.
      * intros Hge. destruct m2 as [|m2]; [|lia].
        assert (r2 = inr false) as Hr.
        { destruct r2 as [e|[|]]; [| |done].
          - assert (0 < 0)%nat by (by apply Htrue2). lia.
          - assert (0 < 0)%nat by (by apply Htrue2). lia. }
        specialize (Hfalse2 Hr). rewrite Nat.add_0_r in Hfalse2. lia.
Qed.

Lemma prune_twice_witness :
  valid default_pruner ∧
  get_trial late_study (_trial_id late_trial) = Some late_trial ∧
  markers_are_prefix (system_attrs late_trial) ∧
  ∃ r1 study1 trial1 r2 study2 new,
    prune default_pruner late_study late_trial = Some (r1, study1) ∧
    get_trial study1 (_trial_id late_trial) = Some trial1 ∧
    same_reports late_trial trial1 ∧
    prune default_pruner study1 trial1 = Some (r2, study2) ∧
    writes_between study1 study2 new ∧
    Forall (λ w, w.1.1 = _trial_id late_trial ∧ system_attrs trial1 !! w.1.2 = None) new ∧
    (r1 = inr false → r2 = inr false ∧ study2 = study1) ∧
    (∀ step, reported late_trial step NaN → r2 = r1 ∧ study2 = study1) ∧
    (∀ step x, reported late_trial step (Num x) → r1 = inr true →
       (_get_current_rung late_trial < _get_current_rung trial1)%nat ∧
       system_attrs trial1 !! _completed_rung_key (_get_current_rung trial1 - 1) = Some x ∧
       rung_promotion_step default_pruner (_get_current_rung trial1 - 1) ≤ step ∧
       (step < rung_promotion_step default_pruner (_get_current_rung trial1) →
        r2 = inr false ∧ study2 = study1) ∧
       ∃ m2,
         new = markers_written (_trial_id late_trial) x (_get_current_rung trial1) m2 ∧
         (rung_promotion_step default_pruner (_get_current_rung trial1) ≤ step →
          (0 < m2)%nat) ∧
         (r2 = inr false →
          step < rung_promotion_step default_pruner (_get_current_rung trial1 + m2)) ∧
         (r2 ≠ inr false → (0 < m2)%nat)).
Proof.
  assert (markers_are_prefix (system_attrs late_trial)) as Hp
    by (exists 0%nat; apply completed_below_empty).
  split; [exact default_pruner_valid|]. split; [reflexivity|]. split; [exact Hp|].
  exact (prune_twice default_pruner late_study late_trial
           default_pruner_valid eq_refl Hp).
Defined.

(** * Exceptions of [prune] over a store that may fail *)

(** Over the store whose calls succeed, [prune_on] is [prune]. *)
Lemma prune_loop_on_reliable (self : SuccessiveHalvingPruner) (trial_id : nat)
    (step : Z) (v : value) (fuel rung : nat) (trials : option (list FrozenTrial))
    (study : Study) :
  prune_loop_on reliable_calls fuel self trial_id step v rung trials study
  = (λ p, (outcome_of p.1, p.2)) <$> prune_loop fuel self trial_id step v rung trials study.
Proof.
  revert rung trials study. induction fuel as [|fuel IH]; intros rung trials study; [done|].
  simpl. case_decide; [done|]. destruct v as [|x]; [done|].
  destruct trials as [ts|]; simpl;
    (destruct (_is_trial_promotable_to_next_rung _ _ _ _) as [e|[|]]; [done| |done]);
    apply IH.
Qed.

Lemma prune_on_reliable (self : SuccessiveHalvingPruner) (study : Study)
    (trial : FrozenTrial) :
  prune_on reliable_calls self study trial
  = (λ p, (outcome_of p.1, p.2)) <$> prune self study trial.
Proof.
  unfold prune_on, prune. destruct (last_step trial) as [step|]; [|done].
  destruct (intermediate_values trial !! step) as [v|]; [|done].
  apply prune_loop_on_reliable.
Qed.

(** Whatever the store does, the loop of a constructed pruner ends, and it
    ends with a boolean or with the store's failure. *)
Lemma prune_loop_on_outcome (calls : StoreCalls) (self : SuccessiveHalvingPruner)
    (trial_id : nat) (step : Z) (v : value) (fuel rung : nat)
    (trials : option (list FrozenTrial)) (study : Study) :
  valid self →
  step - Z.of_nat rung < Z.of_nat fuel → (0 < fuel)%nat →
  ∃ o study',
    prune_loop_on calls fuel self trial_id step v rung trials study = Some (o, study') ∧
    ((∃ b, o = Returned b) ∨ o = StoreRaised).
Proof.
  intros Hv. revert rung trials study.
  induction fuel as [|fuel IH]; intros rung trials study Hfuel Hpos; [lia|].
  simpl. case_decide as Hstep; [by eexists _, _; split; [|left; eexists]|].
  destruct v as [|x]; [by eexists _, _; split; [|left; eexists]|].
  destruct (match trials with Some ts => Some ts | None => try_get_trials calls study end)
    as [ts|]; [|by eexists _, _; split; [|right]].
  destruct (try_set_trial_system_attr calls study trial_id (_completed_rung_key rung) x)
    as [study'|]; [|by eexists _, _; split; [|right]].
  match goal with
  | |- context [_is_trial_promotable_to_next_rung ?a ?l ?rf ?d] =>
      destruct (_is_trial_promotable_to_next_rung_returns a l rf d) as [b ->];
        [apply Hv|apply _get_competing_values_nonempty|]
  end.
  destruct b; [|by eexists _, _; split; [|left; eexists]].
  pose proof (rung_promotion_step_above_rung self rung Hv).
  apply IH; lia.
Qed.

(** X14: over a store whose calls may fail, [prune] of a constructed pruner
    always ends, and it ends in one of three ways: it returns a boolean, it
    lets a failure of a store call through, or it raises the [KeyError] of a
    trial that has no value at its last step, before any store call.  The
    decision engine never raises inside it.  Over the store whose calls
    succeed this is [prune]. *)
Theorem prune_raises_only_key_error_or_store_failure
    (calls : StoreCalls) (self : SuccessiveHalvingPruner) (study : Study)
    (trial : FrozenTrial) :
  valid self →
  (∃ o study',
     prune_on calls self study trial = Some (o, study') ∧
     ((∃ b, o = Returned b) ∨ o = StoreRaised ∨
      (o = Raised KeyError ∧ study' = study ∧
       ∃ step, last_step trial = Some step ∧ intermediate_values trial !! step = None))) ∧
  prune_on reliable_calls self study trial
  = (λ p, (outcome_of p.1, p.2)) <$> prune self study trial.
Proof.
  intros Hv. split; [|apply prune_on_reliable].
  unfold prune_on.
  destruct (last_step trial) as [step|] eqn:Hstep;
    [|by eexists _, _; split; [|left; eexists]].
  destruct (intermediate_values trial !! step) as [v|] eqn:Hval.
  - destruct (prune_loop_on_outcome calls self (_trial_id trial) step v
                (S (Z.to_nat step)) (_get_current_rung trial) None study Hv)
      as (o & study' & -> & [Ho|Ho]); [lia|lia| |]; eexists _, _; (split; [done|]); auto.
  - eexists _, _. split; [done|]. right. right. split_and!; [done..|]. by exists step.
Qed.

Lemma prune_raises_only_key_error_or_store_failure_witness :
  valid default_pruner ∧
  (∃ o study',
     prune_on read_only_calls default_pruner late_study late_trial = Some (o, study') ∧
     ((∃ b, o = Returned b) ∨ o = StoreRaised ∨
      (o = Raised KeyError ∧ study' = late_study ∧
       ∃ step, last_step late_trial = Some step ∧
               intermediate_values late_trial !! step = None))) ∧
  prune_on reliable_calls default_pruner late_study late_trial
  = (λ p, (outcome_of p.1, p.2)) <$> prune default_pruner late_study late_trial.
Proof.
  split; [exact default_pruner_valid|].
  exact (prune_raises_only_key_error_or_store_failure read_only_calls default_pruner
           late_study late_trial default_pruner_valid).
Defined.
